(** * Embed tool (src/index.js): registry resolution, URL matching, the
      embed record and the readiness of its frame, as a shallow embedding.

    The program is JavaScript, so the embedding starts with the fragment of
    the language's values the tool touches: primitives, plain objects,
    regular expressions and user functions.

    - Strings are [string]s whose characters stand for the code units
      0..255.
    - Numbers are the safe integers, NaN and the two infinities: [JNum z]
      is the integer [z] when its absolute value is at most 2^53 - 1, and
      the infinity of its sign beyond.  Only their truthiness and their
      printed form are used.
    - A regular expression has a source, flags other than g and y, and what
      [exec] returns on a string.  With neither g nor y, [test] and [exec]
      do not read or write [lastIndex]; patterns with one of these flags
      are not among the values here.
    - User functions are pure and total, and return a string or
      [undefined].
    - Objects are plain data: own enumerable properties, no getters.  Of
      [Object.prototype] only [hasOwnProperty] is modelled, which
      [matchService] calls; none of the names the tool reads with a literal
      ([service], [regex], [detail], ...) lives there.  A key that names
      another property of [Object.prototype], [__proto__] among them, is
      read and written as an own property like any other key.
    - A call either returns or throws; what was assigned before a throw
      stays assigned.

    The catalogue [./services] and the browser ([CSS.supports], the HTML
    parser behind [template.innerHTML], the rendered nodes) are parameters.
    The editor's API object and the tool's own [config] are taken to be
    there: reading class names off them and showing a notice do not throw.
    The timers, the mutation observer and the [debounce] package behind
    [embedIsReady] are not in the source; they are modelled in the last
    part, on a trace of mutation batches. *)

From Stdlib Require Import List String Ascii ZArith NArith Bool Arith Lia.
From Stdlib Require Import DecimalString Sorted.
Import ListNotations.
Local Open Scope string_scope.

Set Implicit Arguments.

(** ** Values *)

(** What a capture group holds: [None] is [undefined]. *)
Definition capture := option string.

(** The flags of a pattern that leave [lastIndex] alone. *)
Inductive flag := HasIndices | IgnoreCase | Multiline | DotAll | Unicode | UnicodeSets.

(** [re_source] is the text between the slashes; [re_exec] gives
    [regex.exec(s).slice(1)]: the capture groups without the full match,
    [None] when [exec] returns [null]. *)
Record RegExp := {
  re_source : string;
  re_flags : list flag;
  re_exec : string -> option (list capture)
}.

(** What a user function is called with: the capture groups, as the id
    extractor of a service is, or a key, as a function that the registry
    holds under [hasOwnProperty] is. *)
Inductive argument :=
| Groups (ids : list capture)
| Key (key : string).

Record Callable := {
  fn_text : string;
  fn_call : argument -> capture
}.

#[warnings="-register-all"]
Inductive jsval :=
| JUndefined
| JNull
| JBool (b : bool)
| JNum (z : Z)
| JNaN
| JStr (s : string)
| JRegExp (r : RegExp)
| JFun (f : Callable)
| JObj (props : list (string * jsval)).

(** An object's own enumerable properties, in creation order. *)
Definition obj := list (string * jsval).

Inductive exn :=
| TypeError
| Error (message : string).

Inductive result (A : Type) :=
| Ok (a : A)
| Throw (e : exn).
Arguments Throw {A} e.

Definition bind {A B} (r : result A) (k : A -> result B) : result B :=
  match r with
  | Ok a => k a
  | Throw e => Throw e
  end.

Notation "x <- r ;; k" := (bind r (fun x => k))
  (at level 61, r at next level, right associativity).

Inductive jstype := TUndefined | TObject | TBoolean | TNumber | TString | TFunction.

Definition typeof (v : jsval) : jstype :=
  match v with
  | JUndefined => TUndefined
  | JNull => TObject
  | JBool _ => TBoolean
  | JNum _ | JNaN => TNumber
  | JStr _ => TString
  | JRegExp _ => TObject
  | JFun _ => TFunction
  | JObj _ => TObject
  end.

Definition jstype_eqb (a b : jstype) : bool :=
  match a, b with
  | TUndefined, TUndefined | TObject, TObject | TBoolean, TBoolean
  | TNumber, TNumber | TString, TString | TFunction, TFunction => true
  | _, _ => false
  end.

(** ToBoolean *)
Definition truthy (v : jsval) : bool :=
  match v with
  | JUndefined | JNull | JNaN => false
  | JBool b => b
  | JNum z => negb (Z.eqb z 0)
  | JStr s => negb (String.eqb s "")
  | JRegExp _ | JFun _ | JObj _ => true
  end.

(** [a || b] and [a && b] *)
Definition js_or (a b : jsval) : jsval := if truthy a then a else b.
Definition js_and (a b : jsval) : jsval := if truthy a then b else a.

Definition instanceof_Object (v : jsval) : bool :=
  match v with
  | JRegExp _ | JFun _ | JObj _ => true
  | _ => false
  end.

Definition instanceof_RegExp (v : jsval) : bool :=
  match v with JRegExp _ => true | _ => false end.

Definition instanceof_Function (v : jsval) : bool :=
  match v with JFun _ => true | _ => false end.

Definition is_undefined (v : jsval) : bool :=
  match v with JUndefined => true | _ => false end.

Definition nullish (v : jsval) : bool :=
  match v with JUndefined | JNull => true | _ => false end.

(** What a user function returns, as a value. *)
Definition of_capture (c : capture) : jsval :=
  match c with
  | Some s => JStr s
  | None => JUndefined
  end.

(** Number.prototype.toString: a safe integer prints all its digits. *)
Definition MAX_SAFE_INTEGER : Z := 9007199254740991.

Definition Z_to_string (z : Z) : string :=
  if (Z.abs z <=? MAX_SAFE_INTEGER)%Z then NilZero.string_of_int (Z.to_int z)
  else if (z <? 0)%Z then "-Infinity" else "Infinity".
Definition nat_to_string (n : nat) : string := NilZero.string_of_uint (Nat.to_uint n).

(** [regex.source]: the empty pattern reads [(?:)]. *)
Definition regexp_source (r : RegExp) : string :=
  if String.eqb (re_source r) "" then "(?:)" else re_source r.

Definition has_flag (f : flag) (r : RegExp) : bool :=
  existsb (fun g => match f, g with
                    | HasIndices, HasIndices | IgnoreCase, IgnoreCase
                    | Multiline, Multiline | DotAll, DotAll
                    | Unicode, Unicode | UnicodeSets, UnicodeSets => true
                    | _, _ => false
                    end) (re_flags r).

(** [regex.flags], in the order the language prints them. *)
Definition regexp_flags (r : RegExp) : string :=
  ((if has_flag HasIndices r then "d" else "")
   ++ (if has_flag IgnoreCase r then "i" else "")
   ++ (if has_flag Multiline r then "m" else "")
   ++ (if has_flag DotAll r then "s" else "")
   ++ (if has_flag Unicode r then "u" else "")
   ++ (if has_flag UnicodeSets r then "v" else ""))%string.

(** RegExp.prototype.toString *)
Definition re_text (r : RegExp) : string :=
  ("/" ++ regexp_source r ++ "/" ++ regexp_flags r)%string.

Definition ToString (v : jsval) : string :=
  match v with
  | JUndefined => "undefined"
  | JNull => "null"
  | JBool true => "true"
  | JBool false => "false"
  | JNum z => Z_to_string z
  | JNaN => "NaN"
  | JStr s => s
  | JRegExp r => re_text r
  | JFun f => fn_text f
  | JObj _ => "[object Object]"
  end.

(** ** Objects *)

Fixpoint obj_get (o : obj) (k : string) : option jsval :=
  match o with
  | [] => None
  | (k', v) :: o' => if String.eqb k' k then Some v else obj_get o' k
  end.

(** [o[k] = v]: an existing property keeps its place, a new one goes last. *)
Fixpoint obj_set (o : obj) (k : string) (v : jsval) : obj :=
  match o with
  | [] => [(k, v)]
  | (k', v') :: o' =>
      if String.eqb k' k then (k, v) :: o' else (k', v') :: obj_set o' k v
  end.

(** [o.k] on an object. *)
Definition prop (o : obj) (k : string) : jsval :=
  match obj_get o k with
  | Some v => v
  | None => JUndefined
  end.

(** [v.k] on a value that is neither [undefined] nor [null]: an own
    property of a plain object; [source] on a RegExp, the one name among
    those the tool reads that a RegExp, a function or a primitive has. *)
Definition field (v : jsval) (k : string) : jsval :=
  match v with
  | JObj o => prop o k
  | JRegExp r => if String.eqb k "source" then JStr (regexp_source r) else JUndefined
  | _ => JUndefined
  end.

(** [v.k], as in a destructuring [const {k} = v]: a TypeError on
    [undefined] and [null]. *)
Definition get_prop (v : jsval) (k : string) : result jsval :=
  match v with
  | JUndefined | JNull => Throw TypeError
  | _ => Ok (field v k)
  end.

(** Keys that are array indices ("0", "1", ... below 2^32 - 1) are enumerated
    first, in ascending order; the other keys follow in creation order. *)
Definition is_digit (c : ascii) : bool :=
  (48 <=? nat_of_ascii c)%nat && (nat_of_ascii c <=? 57)%nat.

Fixpoint digits_value (acc : N) (s : string) : option N :=
  match s with
  | "" => Some acc
  | String c r =>
      if is_digit c
      then digits_value (10 * acc + (N_of_ascii c - 48))%N r
      else None
  end.

Definition array_index (k : string) : option N :=
  match k with
  | "" => None
  | String c r =>
      if Ascii.eqb c "0"
      then (if String.eqb r "" then Some 0%N else None)
      else match digits_value 0 k with
           | Some n => if (n <? 4294967295)%N then Some n else None
           | None => None
           end
  end.

Fixpoint uniq (ks : list string) : list string :=
  match ks with
  | [] => []
  | k :: r => k :: filter (fun k' => negb (String.eqb k k')) (uniq r)
  end.

Fixpoint insert_index (n : N) (k : string) (l : list (N * string)) :=
  match l with
  | [] => [(n, k)]
  | (m, k') :: r =>
      if (n <=? m)%N then (n, k) :: l else (m, k') :: insert_index n k r
  end.

Fixpoint index_keys (ks : list string) : list (N * string) :=
  match ks with
  | [] => []
  | k :: r =>
      match array_index k with
      | Some n => insert_index n k (index_keys r)
      | None => index_keys r
      end
  end.

Definition is_index (k : string) : bool :=
  match array_index k with Some _ => true | None => false end.

Definition own_keys (o : obj) : list string :=
  let ks := uniq (map fst o) in
  (map snd (index_keys ks) ++ filter (fun k => negb (is_index k)) ks)%list.

Definition own_entries (o : obj) : list (string * jsval) :=
  map (fun k => (k, prop o k)) (own_keys o).

Fixpoint string_entries (i : nat) (s : string) : list (string * jsval) :=
  match s with
  | "" => []
  | String c r => (nat_to_string i, JStr (String c "")) :: string_entries (S i) r
  end.

(** The own enumerable string-keyed properties of any value. *)
Definition own_enumerable (v : jsval) : list (string * jsval) :=
  match v with
  | JObj o => own_entries o
  | JStr s => string_entries 0 s
  | _ => []
  end.

(** [Object.entries(v)] *)
Definition Object_entries (v : jsval) : result (list (string * jsval)) :=
  if nullish v then Throw TypeError else Ok (own_enumerable v).

(** [Object.assign({}, a, b)] *)
Definition assign_into (target : obj) (source : jsval) : obj :=
  fold_left (fun t e => obj_set t (fst e) (snd e)) (own_enumerable source) target.

Definition Object_assign (a b : jsval) : jsval :=
  JObj (assign_into (assign_into [] a) b).

(** ** Strings *)

Fixpoint prefix_of (p s : string) : bool :=
  match p, s with
  | "", _ => true
  | String a p', String b s' => Ascii.eqb a b && prefix_of p' s'
  | String _ _, "" => false
  end.

Fixpoint drop (n : nat) (s : string) : string :=
  match n, s with
  | O, _ => s
  | S n', String _ s' => drop n' s'
  | S _, "" => ""
  end.

Definition strip_prefix (p s : string) : option string :=
  if prefix_of p s then Some (drop (String.length p) s) else None.

(** The text matched by [/<\%\= remote\_id \%\>/g]: every escape in it is an
    identity escape. *)
Definition placeholder : string := "<%= remote_id %>".

(** GetSubstitution for a pattern without capture groups: [$$] is a dollar,
    [$&] the matched text, [$`] the text before the match, [$'] the text
    after it; any other [$] stays as it is. *)
Fixpoint GetSubstitution (matched before after replacement : string) : string :=
  match replacement with
  | "" => ""
  | String c rest =>
      if Ascii.eqb c "$"
      then match rest with
           | "" => "$"
           | String d rest' =>
               if Ascii.eqb d "$"
               then String "$" (GetSubstitution matched before after rest')
               else if Ascii.eqb d "&"
               then matched ++ GetSubstitution matched before after rest'
               else if Ascii.eqb d "`"
               then before ++ GetSubstitution matched before after rest'
               else if Ascii.eqb d "'"
               then after ++ GetSubstitution matched before after rest'
               else String "$" (GetSubstitution matched before after rest)
           end
      else String c (GetSubstitution matched before after rest)
  end.

(** [s.replace(/<\%\= remote\_id \%\>/g, replacement)], scanning [s] from
    the left; [before] is the text already passed and [skip] counts the
    characters of a match still to pass. *)
Fixpoint replace_from (replacement before : string) (skip : nat) (s : string) : string :=
  match s with
  | "" => ""
  | String c rest =>
      match skip with
      | S n => replace_from replacement (before ++ String c "") n rest
      | O =>
          if prefix_of placeholder s
          then GetSubstitution placeholder before
                 (drop (String.length placeholder) s) replacement
               ++ replace_from replacement (before ++ String c "")
                    (String.length placeholder - 1) rest
          else String c (replace_from replacement (before ++ String c "") 0 rest)
      end
  end.

Definition replace_remote_id (template replacement : string) : string :=
  replace_from replacement "" 0 template.

(** ToString of what an id extractor returns. *)
Definition capture_text (c : capture) : string :=
  match c with
  | Some s => s
  | None => "undefined"
  end.

(** *** The iframe pattern of [matchService]

    [/<iframe.*?\ssrc=(Q)(.+?)\1.+iframe>/], where Q is the class of the
    single quote, the bar and the double quote, as the backtracking matcher
    runs it.  Only the second group is read, so the matcher returns it. *)

Definition dquote : ascii := "034"%char.
Definition squote : ascii := "039"%char.

(** [.] matches anything but a line terminator. *)
Definition line_terminator (c : ascii) : bool :=
  Ascii.eqb c "010"%char || Ascii.eqb c "013"%char.

(** [\s] *)
Definition white_space (c : ascii) : bool :=
  let n := nat_of_ascii c in
  ((9 <=? n)%nat && (n <=? 13)%nat) || (n =? 32)%nat || (n =? 160)%nat.

(** The class Q: a single quote, a bar or a double quote. *)
Definition quote_class (c : ascii) : bool :=
  Ascii.eqb c squote || Ascii.eqb c "|"%char || Ascii.eqb c dquote.

(** [.+iframe>] *)
Fixpoint tail_matches (s : string) : bool :=
  match s with
  | "" => false
  | String c r =>
      negb (line_terminator c) && (prefix_of "iframe>" r || tail_matches r)
  end.

(** [(.+?)\1.+iframe>] after the opening quote [q]: the group grows one
    character at a time and stops at the first length that lets the rest
    match; [acc] is the group so far. *)
Fixpoint src_group (q : ascii) (acc : string) (s : string) : option string :=
  match s with
  | "" => None
  | String c r =>
      if line_terminator c then None
      else match r with
           | String c' r' =>
               if Ascii.eqb c' q && tail_matches r'
               then Some (acc ++ String c "")
               else src_group q (acc ++ String c "") r
           | "" => None
           end
  end.

(** [\ssrc=(Q)(.+?)\1.+iframe>] *)
Definition src_attribute (s : string) : option string :=
  match s with
  | String w r =>
      if white_space w
      then match strip_prefix "src=" r with
           | Some (String q r') => if quote_class q then src_group q "" r' else None
           | _ => None
           end
      else None
  | "" => None
  end.

(** [.*?\ssrc=...]: the gap grows one character at a time. *)
Fixpoint lazy_gap (s : string) : option string :=
  match src_attribute s with
  | Some u => Some u
  | None =>
      match s with
      | String c r => if line_terminator c then None else lazy_gap r
      | "" => None
      end
  end.

Definition iframe_at (s : string) : option string :=
  match strip_prefix "<iframe" s with
  | Some r => lazy_gap r
  | None => None
  end.

(** [str.match(...)]: the leftmost position at which the pattern matches;
    the result is [ary[2]], [None] when [ary] is [null]. *)
Fixpoint iframe_src (s : string) : option string :=
  match iframe_at s with
  | Some u => Some u
  | None =>
      match s with
      | String _ r => iframe_src r
      | "" => None
      end
  end.

(** [Array.prototype.filter] and [map] with a callback that may throw. *)
Fixpoint filterM {A} (f : A -> result bool) (l : list A) : result (list A) :=
  match l with
  | [] => Ok []
  | a :: r =>
      b <- f a;;
      r' <- filterM f r;;
      Ok (if b then a :: r' else r')
  end.

Fixpoint mapM {A B} (f : A -> result B) (l : list A) : result (list B) :=
  match l with
  | [] => Ok []
  | a :: r =>
      b <- f a;;
      r' <- mapM f r;;
      Ok (b :: r')
  end.

Fixpoint foldM {A B} (f : B -> A -> result B) (l : list A) (b : B) : result B :=
  match l with
  | [] => Ok b
  | a :: r =>
      b' <- f b a;;
      foldM f r b'
  end.

Definition includes (ks : list string) (k : string) : bool :=
  existsb (String.eqb k) ks.

(** ** The tool *)

(** [Embed.services] is [undefined] until [prepare] has run. *)
Definition registry := option obj.

Inductive content :=
| InputHolder
| Frame (html : string) (src source : jsval).

(** A rendered container: what it shows, the inner HTML of its first
    descendant carrying the editor's input class, and whether it has a
    parent node. *)
Record view := {
  shown : content;
  caption_node : option string;
  parentNode : bool
}.

(** The tool: its record, its view, and [this.nodes.inputHolder], which is
    [None] until [render] has built an input holder and then tells whether
    the holder carries the error class. *)
Record Embed := {
  _data : obj;
  element : option view;
  inputHolder : option bool
}.

(** A call on the tool either returns or throws; the tool keeps what was
    assigned before the throw. *)
Inductive outcome (A : Type) :=
| Returns (a : A) (w : Embed)
| Raises (e : exn) (w : Embed).
Arguments Raises {A} e w.
Arguments Returns {A} a w.

Definition state_of {A} (r : outcome A) : Embed :=
  match r with
  | Returns _ w => w
  | Raises _ w => w
  end.

(** The five fields of an embed record that the setter assigns. *)
Definition record_fields : list string :=
  ["service"; "source"; "embed"; "width"; "height"].

Section Embed.

Set Default Proof Using "Type".

(** The built-in catalogue, [import SERVICES from './services']. *)
Variable SERVICES : jsval.

(** The browser: [CSS.supports(property, value)]; whether a frame template,
    parsed as HTML, starts with an element; and the caption text, if any,
    that a view built from a frame template holds. *)
Variable CSS_supports : string -> jsval -> bool.
Variable first_element : string -> bool.
Variable caption_in : string -> option string.

(** *** Registry resolution *)

(** The value of [isValid] that [checkServiceConfig] returns. *)
Definition checkServiceConfig (config : jsval) : result jsval :=
  regex <- get_prop config "regex";;
  embedUrl <- get_prop config "embedUrl";;
  html <- get_prop config "html";;
  height <- get_prop config "height";;
  width <- get_prop config "width";;
  id <- get_prop config "id";;
  let isValid :=
    js_and (js_and (js_and (js_and (js_and
      regex
      (JBool (instanceof_RegExp regex)))
      embedUrl)
      (JBool (jstype_eqb (typeof embedUrl) TString)))
      html)
      (JBool (jstype_eqb (typeof html) TString)) in
  let isValid :=
    js_and isValid
      (JBool (if negb (is_undefined id) then instanceof_Function id else true)) in
  let isValid :=
    js_and isValid
      (JBool (if negb (is_undefined height) then CSS_supports "height" height else true)) in
  let isValid :=
    js_and isValid
      (JBool (if negb (is_undefined width) then CSS_supports "width" width else true)) in
  Ok isValid.

(** The object literal that [prepare] builds from a user service. *)
Definition pick_fields (service : jsval) : result jsval :=
  regex <- get_prop service "regex";;
  embedUrl <- get_prop service "embedUrl";;
  html <- get_prop service "html";;
  height <- get_prop service "height";;
  width <- get_prop service "width";;
  id <- get_prop service "id";;
  Ok (JObj [("regex", regex); ("embedUrl", embedUrl); ("html", html);
            ("height", height); ("width", width); ("id", id)]).

Definition is_true (v : jsval) : bool :=
  match v with JBool true => true | _ => false end.

(** The callback of the reduce that builds [Embed.services].  [key in result]
    and [result[key]] are read on the own properties of the accumulator. *)
Definition merge_entry (acc : obj) (e : string * jsval) : obj :=
  match obj_get acc (fst e) with
  | None => obj_set acc (fst e) (snd e)
  | Some current => obj_set acc (fst e) (Object_assign current (snd e))
  end.

(** The callback of the reduce that builds [Embed.patterns]. *)
Definition pattern_entry (acc : obj) (e : string * jsval) : result obj :=
  regex <- get_prop (snd e) "regex";;
  Ok (obj_set acc (fst e) regex).

(** The keys that the configuration switches on: [enabledServices]. *)
Definition enabledServices (given : list (string * jsval)) : list string :=
  map fst (filter (fun e => is_true (snd e)) given).

(** The user's own services, checked and cut down to the six fields:
    [userServices]. *)
Definition userServices (given : list (string * jsval))
  : result (list (string * jsval)) :=
  checked <- filterM (fun e => v <- checkServiceConfig (snd e);; Ok (truthy v))
               (filter (fun e => jstype_eqb (typeof (snd e)) TObject) given);;
  mapM (fun e => o <- pick_fields (snd e);; Ok (fst e, o)) checked.

(** The catalogue entries kept when [enabledServices] is not empty. *)
Definition surviving (enabled : list string) (entries : list (string * jsval))
  : list (string * jsval) :=
  match enabled with
  | [] => entries
  | _ :: _ => filter (fun e => includes enabled (fst e)) entries
  end.

(** The value of [entries] when the two reduces run. *)
Definition resolved_entries (config : jsval) : result (list (string * jsval)) :=
  let config := if is_undefined config then JObj [] else config in
  s <- get_prop config "services";;
  let services := if is_undefined s then JObj [] else s in
  entries <- Object_entries SERVICES;;
  given <- Object_entries services;;
  custom <- userServices given;;
  Ok (surviving (enabledServices given) entries ++ custom)%list.

(** [Embed.prepare({config})]: the new [Embed.services] and
    [Embed.patterns]. *)
Definition prepare (config : jsval) : result (obj * obj) :=
  entries <- resolved_entries config;;
  patterns <- foldM pattern_entry entries [];;
  Ok (fold_left merge_entry entries [], patterns).

(** *** Matching *)

Definition lookup (services : registry) (key : jsval) : result jsval :=
  match services with
  | None => Throw TypeError
  | Some o => Ok (prop o (ToString key))
  end.

Definition composePasteEventMock (service url : string) : jsval :=
  JObj [("detail", JObj [("key", JStr service); ("data", JStr url)])].

(** [regex.test(s)], for a pattern without the g and y flags. *)
Definition test (r : RegExp) (s : string) : bool :=
  match re_exec r s with Some _ => true | None => false end.

(** [services.hasOwnProperty(key)]: the method of [Object.prototype], unless
    the registry has a property of that name of its own; that property is
    then what is called, a TypeError when it is not a function. *)
Definition hasOwnProperty (o : obj) (key : string) : result bool :=
  match obj_get o "hasOwnProperty" with
  | None => Ok (match obj_get o key with Some _ => true | None => false end)
  | Some (JFun f) => Ok (truthy (of_capture (fn_call f (Key key))))
  | Some _ => Throw TypeError
  end.

(** The body of the loop of [matchService] for one key: whether the loop
    stops there. *)
Definition pattern_test (o : obj) (key url : string) : result bool :=
  own <- hasOwnProperty o key;;
  if own then
    regex <- get_prop (prop o key) "regex";;
    match regex with
    | JRegExp r => Ok (test r url)
    | _ => Throw TypeError
    end
  else Ok false.

(** The loop of [matchService] over the keys still to visit. *)
Fixpoint first_match (o : obj) (url : string) (keys : list string) : result jsval :=
  match keys with
  | [] => Ok JNull
  | key :: rest =>
      stop <- pattern_test o key url;;
      if stop then Ok (composePasteEventMock key url)
      else first_match o url rest
  end.

(** The candidate URL: [(ary && ary[2]) || str]. *)
Definition candidate (str : string) : string :=
  match iframe_src str with
  | Some u => if String.eqb u "" then str else u
  | None => str
  end.

Definition matchService (services : registry) (str : string) : result jsval :=
  let url := candidate str in
  if String.eqb url "" then Ok JUndefined
  else match services with
       | None => Ok JNull
       | Some o => first_match o url (own_keys o)
       end.

(** *** The embed record and its view *)

(** [get data()]: with a view in place, the caption is read off it and
    stored in [_data]. *)
Definition get_data (w : Embed) : obj * Embed :=
  match element w with
  | Some v =>
      let caption := match caption_node v with Some h => h | None => "" end in
      let d := obj_set (_data w) "caption" (JStr caption) in
      (d, {| _data := d; element := element w; inputHolder := inputHolder w |})
  | None => (_data w, w)
  end.

(** [render()].  Without a service it builds the input holder, whose input
    node is empty and carries the editor's input class, the class the
    getter looks for, and keeps it in [this.nodes.inputHolder].  With a
    service it reads the frame template of
    [Embed.services[service]]: a TypeError when there is no such service,
    and when the template is not a string that starts with an element, on
    which [setAttribute] can be called.  [this.element] is assigned last. *)
Definition render (services : registry) (w : Embed) : outcome view :=
  let (d, w1) := get_data w in
  if negb (truthy (prop d "service")) then
    let container :=
      {| shown := InputHolder; caption_node := Some ""; parentNode := false |} in
    Returns container
      {| _data := _data w1; element := Some container; inputHolder := Some false |}
  else
    match (s <- lookup services (prop d "service");; get_prop s "html") with
    | Throw e => Raises e w1
    | Ok (JStr html) =>
        if first_element html then
          let container :=
            {| shown := Frame html (prop d "embed") (prop d "source");
               caption_node := caption_in html;
               parentNode := false |} in
          Returns container
            {| _data := _data w1; element := Some container;
               inputHolder := inputHolder w1 |}
        else Raises TypeError w1
    | Ok _ => Raises TypeError w1
    end.

Definition replaced (v : view) : view :=
  {| shown := shown v; caption_node := caption_node v; parentNode := true |}.

(** [set data(data)].  The getter is read for each field before [_data] is
    assigned.  With a view in place, [oldView.parentNode.replaceChild] is
    looked up before [render()] is called, a TypeError when the view has no
    parent; the new view then takes the place of the old one. *)
Definition set_data (services : registry) (w : Embed) (data : jsval) : outcome unit :=
  if negb (instanceof_Object data) then
    Raises (Error "Embed Tool data should be object") w
  else
    let current k := prop (fst (get_data w)) k in
    let w1 :=
      {| _data := [("service", js_or (field data "service") (current "service"));
                   ("source", js_or (field data "source") (current "source"));
                   ("embed", js_or (field data "embed") (current "embed"));
                   ("width", js_or (field data "width") (current "width"));
                   ("height", js_or (field data "height") (current "height"))];
         element := element w;
         inputHolder := inputHolder w |} in
    match element w with
    | None => Returns tt w1
    | Some oldView =>
        if parentNode oldView then
          match render services w1 with
          | Returns container w2 =>
              Returns tt {| _data := _data w2; element := Some (replaced container);
                            inputHolder := inputHolder w2 |}
          | Raises e w2 => Raises e w2
          end
        else Raises TypeError w1
    end.

(** [constructor({data, config, api})] *)
Definition constructor (services : registry) (data : jsval) : outcome unit :=
  set_data services {| _data := []; element := None; inputHolder := None |} data.

(** [save()] *)
Definition save (w : Embed) : obj * Embed := get_data w.

(** The default id extractor, [(ids) => ids.shift()]. *)
Definition shift (ids : list capture) : capture :=
  match ids with
  | [] => None
  | c :: _ => c
  end.

(** The destructuring default [id = (ids) => ids.shift()], and the call
    [id(result)] of what is there otherwise. *)
Definition extractor (id : jsval) : result (list capture -> capture) :=
  match id with
  | JUndefined => Ok shift
  | JFun f => Ok (fun ids => fn_call f (Groups ids))
  | _ => Throw TypeError
  end.

(** The record that [performServices] assigns to [this.data]. *)
Definition service_record (services : registry) (event : jsval) : result jsval :=
  detail <- get_prop event "detail";;
  service <- get_prop detail "key";;
  url <- get_prop detail "data";;
  s <- lookup services service;;
  regex <- get_prop s "regex";;
  embedUrl <- get_prop s "embedUrl";;
  width <- get_prop s "width";;
  height <- get_prop s "height";;
  id <- get_prop s "id";;
  match regex, embedUrl with
  | JRegExp r, JStr template =>
      match re_exec r (ToString url) with
      | None => Throw TypeError
      | Some groups =>
          extract <- extractor id;;
          let embed := replace_remote_id template (capture_text (extract groups)) in
          Ok (JObj [("service", service); ("source", url); ("embed", JStr embed);
                    ("width", width); ("height", height)])
      end
  | _, _ => Throw TypeError
  end.

(** [performServices(event)], which is also [onPaste(event)]. *)
Definition performServices (services : registry) (w : Embed) (event : jsval)
  : outcome unit :=
  match service_record services event with
  | Throw e => Raises e w
  | Ok data => set_data services w data
  end.

(** [applyErrorStyle()]: the error class goes on the input holder, a
    TypeError when [render] has built none. *)
Definition applyErrorStyle (w : Embed) : outcome unit :=
  match inputHolder w with
  | Some _ =>
      Returns tt {| _data := _data w; element := element w; inputHolder := Some true |}
  | None => Raises TypeError w
  end.

(** [removeErrorStyle()] *)
Definition removeErrorStyle (w : Embed) : outcome unit :=
  match inputHolder w with
  | Some _ =>
      Returns tt {| _data := _data w; element := element w; inputHolder := Some false |}
  | None => Raises TypeError w
  end.

(** [checkFailed(errorMessage)]: the notice goes to the editor's notifier,
    then the error style is applied. *)
Definition checkFailed (w : Embed) : outcome unit := applyErrorStyle w.

(** [startChecking(str)]; the boolean tells which branch was taken, [true]
    for the one that found a service. *)
Definition startChecking (services : registry) (w : Embed) (str : string)
  : outcome bool :=
  match matchService services str with
  | Throw e => Raises e w
  | Ok event =>
      if truthy event then
        match performServices services w event with
        | Returns _ w' => Returns true w'
        | Raises e w' => Raises e w'
        end
      else
        match checkFailed w with
        | Returns _ w' => Returns false w'
        | Raises e w' => Raises e w'
        end
  end.

(** The tools a program can hold: built by the constructor, then driven
    through the setter, [render], a paste, a check of typed input, the
    error style and the getter, while the editor and the user change the
    rendered view. *)
Inductive reachable : Embed -> Prop :=
| reach_new services data w :
    constructor services data = Returns tt w -> reachable w
| reach_set services w data :
    reachable w -> reachable (state_of (set_data services w data))
| reach_render services w :
    reachable w -> reachable (state_of (render services w))
| reach_paste services w event :
    reachable w -> reachable (state_of (performServices services w event))
| reach_check services w str :
    reachable w -> reachable (state_of (startChecking services w str))
| reach_style w :
    reachable w -> reachable (state_of (applyErrorStyle w))
| reach_plain w :
    reachable w -> reachable (state_of (removeErrorStyle w))
| reach_read w :
    reachable w -> reachable (snd (get_data w))
| reach_view w v :
    reachable w ->
    reachable {| _data := _data w; element := v; inputHolder := inputHolder w |}.

(** A record in which a field is either [undefined] or truthy. *)
Definition settled (d : obj) : Prop :=
  forall k, In k record_fields -> truthy (prop d k) = false -> prop d k = JUndefined.

(** ** Properties *)

(** For the lemmas about values alone: the catalogue and the browser are
    put aside before the proof starts. *)
Ltac pure_js := clear first_element caption_in SERVICES CSS_supports.

(** *** Objects *)

Lemma obj_get_set_same (o : obj) k v : obj_get (obj_set o k v) k = Some v.
Proof.
  induction o as [|[k' v'] o IH]; simpl.
  - now rewrite String.eqb_refl.
  - destruct (String.eqb k' k) eqn:E; simpl.
    + now rewrite String.eqb_refl.
    + now rewrite E.
Qed.

Lemma obj_get_set_other (o : obj) k k' v :
  k <> k' -> obj_get (obj_set o k v) k' = obj_get o k'.
Proof.
  intros Hne. induction o as [|[k0 v0] o IH]; simpl.
  - destruct (String.eqb k k') eqn:E; [apply String.eqb_eq in E; contradiction | reflexivity].
  - destruct (String.eqb k0 k) eqn:E; simpl.
    + apply String.eqb_eq in E; subst k0.
      destruct (String.eqb k k') eqn:E'; [apply String.eqb_eq in E'; contradiction | reflexivity].
    + now rewrite IH.
Qed.

Lemma prop_set_same (o : obj) k v : prop (obj_set o k v) k = v.
Proof. unfold prop. now rewrite obj_get_set_same. Qed.

Lemma prop_set_other (o : obj) k k' v :
  k <> k' -> prop (obj_set o k v) k' = prop o k'.
Proof. intros H. unfold prop. now rewrite obj_get_set_other. Qed.

(** *** The embed record *)

Lemma record_field_not_caption k : In k record_fields -> "caption" <> k.
Proof.
  simpl. intros [<-|[<-|[<-|[<-|[<-|[]]]]]]; discriminate.
Qed.

Lemma get_data_data (w : Embed) : _data (snd (get_data w)) = fst (get_data w).
Proof. unfold get_data. now destruct (element w). Qed.

Lemma get_data_element (w : Embed) : element (snd (get_data w)) = element w.
Proof. unfold get_data. destruct (element w) eqn:E; simpl; auto. Qed.

Lemma get_data_prop (w : Embed) k :
  "caption" <> k -> prop (fst (get_data w)) k = prop (_data w) k.
Proof.
  intros Hk. unfold get_data. destruct (element w); simpl; [|reflexivity].
  now apply prop_set_other.
Qed.

Lemma get_data_detached (w : Embed) : element w = None -> get_data w = (_data w, w).
Proof. intros H. unfold get_data. now rewrite H. Qed.

(** Whether it returns or throws, [render] leaves in [_data] what the getter
    read. *)
Lemma render_data services (w : Embed) :
  _data (state_of (render services w)) = fst (get_data w).
Proof.
  unfold render.
  destruct (get_data w) as [d w1] eqn:G.
  assert (Hd : _data w1 = d).
  { change w1 with (snd (d, w1)). rewrite <- G. rewrite get_data_data. now rewrite G. }
  simpl.
  destruct (negb (truthy (prop d "service"))); [exact Hd|].
  destruct (s <- lookup services (prop d "service");; get_prop s "html") as [h|e];
    [|exact Hd].
  destruct h; try exact Hd.
  destruct (first_element s); exact Hd.
Qed.

(** The record that the setter assigns, before any view is rebuilt. *)
Definition merged (w : Embed) (data : jsval) : obj :=
  map (fun k => (k, js_or (field data k) (prop (_data w) k))) record_fields.

Lemma prop_merged (w : Embed) data k :
  In k record_fields ->
  prop (merged w data) k = js_or (field data k) (prop (_data w) k).
Proof.
  simpl. intros [<-|[<-|[<-|[<-|[<-|[]]]]]]; reflexivity.
Qed.

Lemma set_data_object services (w : Embed) data k :
  instanceof_Object data = true ->
  "caption" <> k ->
  prop (_data (state_of (set_data services w data))) k = prop (merged w data) k.
Proof.
  intros Hobj Hk. unfold set_data. rewrite Hobj. simpl negb. cbv iota.
  rewrite !get_data_prop by discriminate.
  fold (merged w data) in *.
  change [("service", js_or (field data "service") (prop (_data w) "service"));
          ("source", js_or (field data "source") (prop (_data w) "source"));
          ("embed", js_or (field data "embed") (prop (_data w) "embed"));
          ("width", js_or (field data "width") (prop (_data w) "width"));
          ("height", js_or (field data "height") (prop (_data w) "height"))]
    with (merged w data).
  destruct (element w) as [oldView|]; [|reflexivity].
  destruct (parentNode oldView); [|reflexivity].
  set (w1 := {| _data := merged w data; element := Some oldView;
                inputHolder := inputHolder w |}).
  pose proof (render_data services w1) as R.
  destruct (render services w1) as [container w2|e w2];
    unfold state_of in R |- *; cbn [_data]; rewrite R;
    exact (get_data_prop w1 Hk).
Qed.

Lemma set_data_field services (w : Embed) data k :
  instanceof_Object data = true ->
  In k record_fields ->
  prop (_data (state_of (set_data services w data))) k
  = js_or (field data k) (prop (_data w) k).
Proof.
  intros Hobj Hk.
  rewrite set_data_object by (auto using record_field_not_caption).
  now apply prop_merged.
Qed.

Lemma set_data_rejected services (w : Embed) data :
  instanceof_Object data = false ->
  set_data services w data = Raises (Error "Embed Tool data should be object") w.
Proof. intros H. unfold set_data. now rewrite H. Qed.

Lemma set_data_detached services (w : Embed) data :
  instanceof_Object data = true ->
  element w = None ->
  set_data services w data
  = Returns tt {| _data := merged w data; element := None;
                  inputHolder := inputHolder w |}.
Proof.
  intros Hobj Hel. unfold set_data. rewrite Hobj, Hel. simpl.
  rewrite (get_data_detached w Hel). reflexivity.
Qed.


Lemma js_or_settled v : (truthy v = false -> v = JUndefined) -> js_or v JUndefined = v.
Proof.
  unfold js_or. destruct (truthy v); intros H; [reflexivity | symmetry; now apply H].
Qed.

Lemma settled_merged (w : Embed) data : settled (_data w) -> settled (merged w data).
Proof.
  intros Hw k Hk. rewrite prop_merged by assumption. unfold js_or.
  destruct (truthy (field data k)) eqn:T.
  - congruence.
  - now apply Hw.
Qed.

Lemma settled_ext (d d' : obj) :
  (forall k, In k record_fields -> prop d' k = prop d k) -> settled d -> settled d'.
Proof.
  intros E H k Hk. rewrite (E k Hk). now apply H.
Qed.

Lemma set_data_settled services (w : Embed) data :
  settled (_data w) -> settled (_data (state_of (set_data services w data))).
Proof.
  intros Hw. destruct (instanceof_Object data) eqn:Hobj.
  - apply settled_ext with (d := merged w data); [|now apply settled_merged].
    intros k Hk. apply set_data_object; auto using record_field_not_caption.
  - now rewrite set_data_rejected.
Qed.

Lemma performServices_settled services (w : Embed) event :
  settled (_data w) -> settled (_data (state_of (performServices services w event))).
Proof.
  intros Hw. unfold performServices.
  destruct (service_record services event); [|assumption].
  now apply set_data_settled.
Qed.

Lemma applyErrorStyle_data (w : Embed) : _data (state_of (applyErrorStyle w)) = _data w.
Proof. unfold applyErrorStyle. now destruct (inputHolder w). Qed.

Lemma startChecking_settled services (w : Embed) str :
  settled (_data w) -> settled (_data (state_of (startChecking services w str))).
Proof.
  intros Hw. unfold startChecking.
  destruct (matchService services str) as [event|e]; [|assumption].
  destruct (truthy event).
  - pose proof (@performServices_settled services w event Hw) as P.
    now destruct (performServices services w event).
  - unfold checkFailed. pose proof (applyErrorStyle_data w) as D.
    destruct (applyErrorStyle w); simpl in *; now rewrite D.
Qed.

Lemma reachable_settled (w : Embed) : reachable w -> settled (_data w).
Proof.
  induction 1 as [services data w Hc|services w data _ IH|services w _ IH
                 |services w event _ IH|services w str _ IH|w _ IH|w _ IH
                 |w _ IH|w v _ IH].
  - unfold constructor in Hc.
    replace w with (state_of (set_data services
                                {| _data := []; element := None; inputHolder := None |}
                                data))
      by now rewrite Hc.
    apply set_data_settled. intros k _ _. reflexivity.
  - now apply set_data_settled.
  - rewrite render_data. apply settled_ext with (d := _data w); [|assumption].
    intros k Hk. apply get_data_prop. now apply record_field_not_caption.
  - now apply performServices_settled.
  - now apply startChecking_settled.
  - now rewrite applyErrorStyle_data.
  - unfold removeErrorStyle. now destruct (inputHolder w).
  - rewrite get_data_data. apply settled_ext with (d := _data w); [|assumption].
    intros k Hk. apply get_data_prop. now apply record_field_not_caption.
  - assumption.
Qed.

(** *** Claims about the embed record *)

(** The record of the specification's example. *)
Definition example_record : obj :=
  [("service", JStr "a"); ("source", JStr "u1"); ("embed", JStr "e1");
   ("width", JNum 10); ("height", JNum 20)].

(** C4 (as amended): after an update with an object, each of the five fields
    whose value in the update is falsy (left out, [undefined], [null],
    [false], 0, NaN or the empty string) keeps its previous value, and each
    field whose value in the update is truthy takes that value; updating the
    example record with [{source: "u2"}] changes the source only. *)
Theorem partial_update_merge services (w : Embed) data k :
  instanceof_Object data = true ->
  In k record_fields ->
  let w' := state_of (set_data services w data) in
  (truthy (field data k) = false -> prop (_data w') k = prop (_data w) k) /\
  (truthy (field data k) = true -> prop (_data w') k = field data k) /\
  set_data services {| _data := example_record; element := None; inputHolder := None |}
    (JObj [("source", JStr "u2")])
  = Returns tt
      {| _data := [("service", JStr "a"); ("source", JStr "u2"); ("embed", JStr "e1");
                   ("width", JNum 10); ("height", JNum 20)];
         element := None; inputHolder := None |}.
Proof.
  intros Hobj Hk w'. subst w'.
  rewrite (set_data_field services w data Hobj Hk). unfold js_or.
  repeat split.
  - now intros ->.
  - now intros ->.
Qed.

(** C10: in an update, a field whose value is 0, [false], [null] or the empty
    string does not overwrite the stored value, as a field left out does
    not; [null] as the update itself is rejected as a non-object, and the
    tool is left as it was. *)
Theorem falsy_field_keeps_previous services (w : Embed) data k :
  instanceof_Object data = true ->
  In k record_fields ->
  In (field data k) [JNum 0; JBool false; JNull; JStr ""] ->
  prop (_data (state_of (set_data services w data))) k = prop (_data w) k /\
  js_or (field data k) (prop (_data w) k) = js_or JUndefined (prop (_data w) k) /\
  set_data services w JNull = Raises (Error "Embed Tool data should be object") w.
Proof.
  intros Hobj Hk Hv.
  rewrite (set_data_field services w data Hobj Hk).
  assert (F : truthy (field data k) = false).
  { simpl in Hv. destruct Hv as [<-|[<-|[<-|[<-|[]]]]]; reflexivity. }
  unfold js_or. rewrite F. simpl. auto.
Qed.


(** C5: a record saved by a tool, given back to the constructor, builds a
    tool whose [save] gives the same service, source, embed, width and
    height. *)
Theorem save_round_trip (w : Embed) services :
  reachable w ->
  exists w',
    constructor services (JObj (fst (save w))) = Returns tt w' /\
    forall k, In k record_fields -> prop (fst (save w')) k = prop (fst (save w)) k.
Proof.
  intros Hw. unfold constructor.
  rewrite set_data_detached by reflexivity.
  eexists. split; [reflexivity|].
  intros k Hk. unfold save at 1. rewrite get_data_detached by reflexivity.
  cbn [fst _data]. rewrite prop_merged by assumption.
  cbn [field _data]. change (prop [] k) with JUndefined.
  apply js_or_settled. unfold save.
  rewrite get_data_prop by now apply record_field_not_caption.
  now apply (reachable_settled Hw).
Qed.

(** *** Matching *)

(** The markup of the specification's example around a src value [u]. *)
Definition wrap_iframe (u : string) : string :=
  "<iframe src=" ++ String dquote (u ++ String dquote "></iframe>").

(** A src value that can stand between double quotes: no double quote and
    no line terminator in it. *)
Fixpoint quotable (u : string) : bool :=
  match u with
  | "" => true
  | String c r => negb (Ascii.eqb c dquote) && negb (line_terminator c) && quotable r
  end.

Lemma append_assoc (a b c : string) : (a ++ b) ++ c = a ++ (b ++ c).
Proof. induction a as [|x a IH]; simpl; [reflexivity | now rewrite IH]. Qed.

Lemma append_nil_r (a : string) : a ++ "" = a.
Proof. induction a as [|x a IH]; simpl; [reflexivity | now rewrite IH]. Qed.

Lemma src_group_quoted (u tail acc : string) :
  u <> "" -> quotable u = true -> tail_matches tail = true ->
  src_group dquote acc (u ++ String dquote tail) = Some (acc ++ u).
Proof.
  revert acc. induction u as [|c u IH]; intros acc Hne Hq Ht; [contradiction|].
  simpl in Hq. apply andb_prop in Hq as [Hq Hu]. apply andb_prop in Hq as [Hc Hl].
  apply negb_true_iff in Hc, Hl.
  simpl. rewrite Hl.
  destruct u as [|c2 u].
  - simpl. try rewrite Ascii.eqb_refl. rewrite Ht. reflexivity.
  - assert (E : Ascii.eqb c2 dquote = false).
    { simpl in Hu. apply andb_prop in Hu as [Hu _]. apply andb_prop in Hu as [Hu _].
      now apply negb_true_iff in Hu. }
    change ((String c2 u ++ String dquote tail)) with (String c2 (u ++ String dquote tail)).
    cbv iota beta. rewrite E. cbn [andb].
    change (String c2 (u ++ String dquote tail)) with (String c2 u ++ String dquote tail).
    rewrite IH; [|discriminate|assumption|assumption].
    now rewrite append_assoc.
Qed.

Lemma iframe_src_wrap (u : string) :
  u <> "" -> quotable u = true -> iframe_src (wrap_iframe u) = Some u.
Proof.
  intros Hne Hq.
  assert (G : src_group dquote "" (u ++ String dquote "></iframe>") = Some u).
  { now rewrite src_group_quoted. }
  unfold wrap_iframe. cbn -[src_group]. now rewrite G.
Qed.

Lemma candidate_wrap (u : string) :
  u <> "" -> quotable u = true -> candidate (wrap_iframe u) = u.
Proof.
  intros Hne Hq. unfold candidate. rewrite iframe_src_wrap by assumption.
  destruct (String.eqb u "") eqn:E; [|reflexivity].
  apply String.eqb_eq in E. contradiction.
Qed.

Lemma first_match_skips (o : obj) url before rest :
  (forall k, In k before -> pattern_test o k url = Ok false) ->
  first_match o url (before ++ rest)%list = first_match o url rest.
Proof.
  induction before as [|k before IH]; intros H; [reflexivity|].
  simpl. rewrite (H k (or_introl eq_refl)). simpl.
  apply IH. intros k' Hk'. apply H. now right.
Qed.

(** The loop stops at the first key at which its body says so. *)
Lemma first_match_stops (o : obj) url before key after :
  (forall k, In k before -> pattern_test o k url = Ok false) ->
  pattern_test o key url = Ok true ->
  first_match o url (before ++ key :: after)%list = Ok (composePasteEventMock key url).
Proof.
  intros Hbefore Hkey. rewrite first_match_skips by assumption.
  simpl. now rewrite Hkey.
Qed.

(** C6 (as amended): for a src value that is not empty, holds no double
    quote and no line terminator, and is not itself iframe markup, the
    markup around it and the bare value match alike in every registry. *)
Theorem iframe_unwraps (services : registry) (u : string) :
  u <> "" ->
  quotable u = true ->
  iframe_src u = None ->
  candidate (wrap_iframe u) = u /\
  matchService services (wrap_iframe u) = matchService services u.
Proof.
  intros Hne Hq Hbare.
  pose proof (candidate_wrap Hne Hq) as C.
  split; [exact C|].
  unfold matchService. rewrite C.
  unfold candidate. now rewrite Hbare.
Qed.

(** *** Substitution of the resource id *)

Fixpoint occurs (p s : string) : bool :=
  prefix_of p s ||
  match s with
  | "" => false
  | String _ r => occurs p r
  end.

Fixpoint has_char (c : ascii) (s : string) : bool :=
  match s with
  | "" => false
  | String a r => Ascii.eqb a c || has_char c r
  end.

(** The segments of a template, put together around a separator. *)
Fixpoint join (sep : string) (segments : list string) : string :=
  match segments with
  | [] => ""
  | s :: rest =>
      match rest with
      | [] => s
      | _ :: _ => s ++ sep ++ join sep rest
      end
  end.

Lemma prefix_of_append (p r : string) : prefix_of p (p ++ r) = true.
Proof.
  induction p as [|a p IH]; simpl; [now destruct r|].
  now rewrite Ascii.eqb_refl.
Qed.

Lemma drop_append (p r : string) : drop (String.length p) (p ++ r) = r.
Proof. induction p as [|a p IH]; simpl; [now destruct r | exact IH]. Qed.

Lemma has_char_append (c : ascii) (a b : string) :
  has_char c (a ++ String c b) = true.
Proof.
  induction a as [|x a IH]; simpl.
  - now rewrite Ascii.eqb_refl.
  - rewrite IH. apply orb_true_r.
Qed.

(** A prefix of [t ++ r] either lies within [t] or ends in [r]. *)
Lemma prefix_of_split (p t r : string) :
  prefix_of p (t ++ r) = true ->
  prefix_of p t = true \/
  exists p2, p = t ++ p2 /\ p2 <> "" /\ prefix_of p2 r = true.
Proof.
  revert p. induction t as [|c t IH]; intros p H.
  - destruct p as [|a p]; [now left|]. right. exists (String a p).
    repeat split; [discriminate | exact H].
  - destruct p as [|a p]; [now left|]. simpl in H.
    apply andb_prop in H as [Hac H]. apply Ascii.eqb_eq in Hac. subst c.
    destruct (IH p H) as [L|[p2 [E [N P]]]].
    + left. simpl. now rewrite Ascii.eqb_refl.
    + right. exists p2. subst p. now repeat split.
Qed.

(** The placeholder does not overlap itself: an occurrence cannot start in
    a segment without the placeholder and end in the placeholder after it. *)
Lemma placeholder_no_overlap (t rest : string) :
  t <> "" -> occurs placeholder t = false ->
  prefix_of placeholder (t ++ placeholder ++ rest) = false.
Proof.
  intros Hne Hocc.
  destruct (prefix_of placeholder (t ++ placeholder ++ rest)) eqn:H; [|reflexivity].
  exfalso. apply prefix_of_split in H as [L|[p2 [E [N P]]]].
  - destruct t as [|c t]; [contradiction|].
    cbn [occurs] in Hocc. rewrite L in Hocc. discriminate.
  - destruct p2 as [|a p2]; [contradiction|].
    simpl in P. apply andb_prop in P as [Ha _]. apply Ascii.eqb_eq in Ha. subst a.
    destruct t as [|c t]; [contradiction|].
    unfold placeholder in E. simpl in E. injection E as _ E.
    pose proof (has_char_append "<" t p2) as F. rewrite <- E in F.
    discriminate F.
Qed.

Lemma replace_from_skip (repl before x rest : string) :
  replace_from repl before (String.length x) (x ++ rest)
  = replace_from repl (before ++ x) 0 rest.
Proof.
  revert before. induction x as [|c x IH]; intros before; simpl.
  - rewrite append_nil_r. now destruct rest.
  - rewrite IH, append_assoc. reflexivity.
Qed.

Lemma GetSubstitution_plain (matched before after repl : string) :
  has_char "$" repl = false ->
  GetSubstitution matched before after repl = repl.
Proof.
  induction repl as [|c r IH]; intros H; [reflexivity|].
  simpl in H. apply orb_false_iff in H as [Hc Hr].
  simpl. rewrite Hc. now rewrite IH.
Qed.

Lemma replace_from_hit (repl before : string) c s :
  prefix_of placeholder (String c s) = true ->
  replace_from repl before 0 (String c s)
  = GetSubstitution placeholder before (drop (String.length placeholder) (String c s)) repl
    ++ replace_from repl (before ++ String c "") (String.length placeholder - 1) s.
Proof.
  intros H. cbn [replace_from]. rewrite H. reflexivity.
Qed.

Lemma replace_from_miss (repl before : string) c s :
  prefix_of placeholder (String c s) = false ->
  replace_from repl before 0 (String c s)
  = String c (replace_from repl (before ++ String c "") 0 s).
Proof.
  intros H. cbn [replace_from]. rewrite H. reflexivity.
Qed.

Lemma replace_from_segment (repl before seg rest : string) :
  occurs placeholder seg = false ->
  replace_from repl before 0 (seg ++ placeholder ++ rest)
  = seg ++ GetSubstitution placeholder (before ++ seg) rest repl
        ++ replace_from repl (before ++ seg ++ placeholder) 0 rest.
Proof.
  revert before. induction seg as [|c seg IH]; intros before Hocc.
  - rewrite append_nil_r.
    change ("" ++ placeholder ++ rest) with (placeholder ++ rest).
    change ("" ++ placeholder) with placeholder.
    change ("" ++ ?x) with x.
    pose proof (prefix_of_append placeholder rest) as P.
    pose proof (drop_append placeholder rest) as D.
    pose proof (replace_from_skip repl (before ++ "<") "%= remote_id %>" rest) as K.
    change (placeholder ++ rest) with (String "<" ("%= remote_id %>" ++ rest)) in P, D |- *.
    rewrite (@replace_from_hit repl before _ _ P), D.
    change (String.length placeholder - 1)%nat with (String.length "%= remote_id %>").
    rewrite K, append_assoc. reflexivity.
  - pose proof (@placeholder_no_overlap (String c seg) rest ltac:(discriminate) Hocc) as N.
    change (String c seg ++ placeholder ++ rest)
      with (String c (seg ++ placeholder ++ rest)) in N |- *.
    rewrite (@replace_from_miss repl before _ _ N).
    cbn [occurs] in Hocc. apply orb_false_iff in Hocc as [_ Hocc].
    rewrite IH by assumption.
    change (String c seg ++ ?x) with (String c (seg ++ x)).
    rewrite !append_assoc. reflexivity.
Qed.

Lemma replace_from_free (repl before seg : string) :
  occurs placeholder seg = false ->
  replace_from repl before 0 seg = seg.
Proof.
  revert before. induction seg as [|c seg IH]; intros before Hocc; [reflexivity|].
  cbn [occurs] in Hocc. apply orb_false_iff in Hocc as [P Hocc].
  rewrite (@replace_from_miss repl before _ _ P). now rewrite IH.
Qed.

(** In a template made of segments without the placeholder, every
    placeholder is replaced by the replacement text, when that text has no
    dollar sign. *)
Lemma replace_from_join (repl : string) (segments : list string) before :
  has_char "$" repl = false ->
  Forall (fun s => occurs placeholder s = false) segments ->
  replace_from repl before 0 (join placeholder segments) = join repl segments.
Proof.
  intros Hd Hs. revert before.
  induction Hs as [|s rest Hfree Hrest IH]; intros before; [reflexivity|].
  destruct rest as [|s2 rest].
  - simpl. now apply replace_from_free.
  - change (join placeholder (s :: s2 :: rest))
      with (s ++ placeholder ++ join placeholder (s2 :: rest)).
    rewrite replace_from_segment by assumption.
    rewrite GetSubstitution_plain by assumption.
    rewrite IH. reflexivity.
Qed.

(** The record that a paste assigns, for a service [s] and an embed URL. *)
Definition paste_record (key url embed : string) (s : obj) : jsval :=
  JObj [("service", JStr key); ("source", JStr url); ("embed", JStr embed);
        ("width", prop s "width"); ("height", prop s "height")].

Lemma service_record_ok (o s : obj) (key url : string) r template groups extract :
  prop o key = JObj s ->
  prop s "regex" = JRegExp r ->
  prop s "embedUrl" = JStr template ->
  re_exec r url = Some groups ->
  extractor (prop s "id") = Ok extract ->
  service_record (Some o) (composePasteEventMock key url)
  = Ok (paste_record key url
          (replace_remote_id template (capture_text (extract groups))) s).
Proof.
  intros Ho Hr Ht Hx Hid. unfold service_record.
  change (get_prop (composePasteEventMock key url) "detail")
    with (Ok (JObj [("key", JStr key); ("data", JStr url)])).
  cbn [bind].
  change (get_prop (JObj [("key", JStr key); ("data", JStr url)]) "key")
    with (Ok (JStr key)).
  change (get_prop (JObj [("key", JStr key); ("data", JStr url)]) "data")
    with (Ok (JStr url)).
  cbn [bind lookup ToString]. rewrite Ho. cbn [get_prop field bind].
  rewrite Hr, Ht. cbn [ToString]. rewrite Hx, Hid. reflexivity.
Qed.

(** C2 (as amended): when the pattern of the service matches the URL and the
    id taken from its groups is the empty string or [undefined], the record
    is still computed, without a throw: an empty id leaves nothing in place
    of each placeholder of the template, and an [undefined] id leaves the
    text "undefined" there. *)
Theorem missing_id_substitution (o s : obj) (key url : string)
    r segments groups extract :
  prop o key = JObj s ->
  prop s "regex" = JRegExp r ->
  prop s "embedUrl" = JStr (join placeholder segments) ->
  Forall (fun seg => occurs placeholder seg = false) segments ->
  re_exec r url = Some groups ->
  extractor (prop s "id") = Ok extract ->
  (extract groups = Some "" ->
   service_record (Some o) (composePasteEventMock key url)
   = Ok (paste_record key url (join "" segments) s)) /\
  (extract groups = None ->
   service_record (Some o) (composePasteEventMock key url)
   = Ok (paste_record key url (join "undefined" segments) s)).
Proof.
  intros Ho Hr Ht Hs Hx Hid.
  rewrite (@service_record_ok o s key url r _ groups extract Ho Hr Ht Hx Hid).
  unfold replace_remote_id.
  split; intros ->; cbn [capture_text];
    now rewrite replace_from_join by (assumption || reflexivity).
Qed.


(** *** Enumeration order *)

Lemma In_uniq (l : list string) k : In k (uniq l) <-> In k l.
Proof. pure_js.
  induction l as [|a l IH]; simpl; [tauto|].
  rewrite filter_In, IH, negb_true_iff.
  destruct (String.eqb a k) eqn:E.
  - apply String.eqb_eq in E. subst. split; intros _; now left.
  - split; [tauto|]. intros [->|H]; [now rewrite String.eqb_refl in E | right; tauto].
Qed.

Lemma NoDup_uniq (l : list string) : NoDup (uniq l).
Proof.
  induction l as [|a l IH]; simpl; constructor.
  - rewrite filter_In, String.eqb_refl. intros [_ H]. discriminate.
  - now apply NoDup_filter.
Qed.

Lemma In_insert_index n k l x :
  In x (insert_index n k l) <-> x = (n, k) \/ In x l.
Proof. pure_js.
  induction l as [|[m k'] l IH]; simpl.
  - intuition.
  - destruct (n <=? m)%N; simpl; [intuition|]. rewrite IH. intuition.
Qed.

Lemma In_index_keys (l : list string) k :
  In k (map snd (index_keys l)) <-> In k l /\ is_index k = true.
Proof. pure_js.
  unfold is_index.
  induction l as [|a l IH]; simpl; [tauto|].
  destruct (array_index a) as [n|] eqn:E.
  - rewrite in_map_iff. split.
    + intros [[m k'] [<- H]]. simpl snd.
      apply In_insert_index in H as [[= -> ->]|H].
      * rewrite E. auto.
      * assert (In k' (map snd (index_keys l))) as H0
          by (apply in_map_iff; now exists (m, k')).
        apply IH in H0. tauto.
    + intros [[->|H] Hk].
      * exists (n, k). split; [reflexivity|]. apply In_insert_index. now left.
      * assert (In k (map snd (index_keys l))) as H' by (apply IH; tauto).
        apply in_map_iff in H' as [x [<- H']]. exists x. split; [reflexivity|].
        apply In_insert_index. now right.
  - rewrite IH. split; [tauto|]. intros [[->|H] Hk]; [now rewrite E in Hk | tauto].
Qed.

Lemma NoDup_insert_index n k l :
  ~ In k (map snd l) -> NoDup (map snd l) -> NoDup (map snd (insert_index n k l)).
Proof. pure_js.
  induction l as [|[m k'] l IH]; simpl; intros Hk Hl.
  - constructor; [tauto | constructor].
  - destruct (n <=? m)%N; simpl.
    + constructor; [simpl; tauto | assumption].
    + inversion Hl as [|? ? Hk' Hl']; subst. constructor.
      * rewrite in_map_iff. intros [x [Hx H]]. apply In_insert_index in H as [->|H].
        -- simpl in Hx. subst. tauto.
        -- apply Hk'. apply in_map_iff. now exists x.
      * apply IH; tauto.
Qed.

Lemma NoDup_index_keys (l : list string) : NoDup l -> NoDup (map snd (index_keys l)).
Proof. pure_js.
  induction 1 as [|a l Ha Hl IH]; simpl; [constructor|].
  destruct (array_index a); [|assumption].
  apply NoDup_insert_index; [|assumption].
  rewrite In_index_keys. tauto.
Qed.

Lemma In_own_keys (o : obj) k : In k (own_keys o) <-> In k (map fst o).
Proof. pure_js.
  unfold own_keys. rewrite in_app_iff, In_index_keys, filter_In, In_uniq, negb_true_iff.
  destruct (is_index k); intuition discriminate.
Qed.

Lemma NoDup_own_keys (o : obj) : NoDup (own_keys o).
Proof.
  unfold own_keys. apply NoDup_app.
  - apply NoDup_index_keys, NoDup_uniq.
  - apply NoDup_filter, NoDup_uniq.
  - intros k H1 H2. apply In_index_keys in H1 as [_ H1].
    apply filter_In in H2 as [_ H2]. rewrite H1 in H2. discriminate.
Qed.

Lemma index_keys_none (l : list string) :
  (forall k, In k l -> is_index k = false) -> index_keys l = [].
Proof.
  unfold is_index. induction l as [|a l IH]; intros H; [reflexivity|].
  simpl. pose proof (H a (or_introl eq_refl)) as Ha.
  destruct (array_index a); [discriminate|].
  apply IH. intros k Hk. apply H. now right.
Qed.

Lemma filter_all {A} (f : A -> bool) (l : list A) :
  (forall a, In a l -> f a = true) -> filter f l = l.
Proof.
  induction l as [|a l IH]; intros H; [reflexivity|].
  simpl. rewrite (H a (or_introl eq_refl)). f_equal.
  apply IH. intros b Hb. apply H. now right.
Qed.

(** Without array indices among the keys, enumeration follows creation. *)
Lemma own_keys_creation_order (o : obj) :
  (forall k, In k (map fst o) -> is_index k = false) ->
  own_keys o = uniq (map fst o).
Proof.
  intros H. unfold own_keys.
  assert (H' : forall k, In k (uniq (map fst o)) -> is_index k = false)
    by (intros k Hk; apply H; now apply In_uniq).
  rewrite index_keys_none by assumption.
  simpl. apply filter_all. intros k Hk. now rewrite H'.
Qed.

Lemma obj_get_None (o : obj) k : obj_get o k = None <-> ~ In k (map fst o).
Proof. pure_js.
  induction o as [|[k' v] o IH]; simpl; [tauto|].
  destruct (String.eqb k' k) eqn:E.
  - apply String.eqb_eq in E. split; [discriminate | tauto].
  - apply String.eqb_neq in E. rewrite IH. tauto.
Qed.

Lemma own_entries_value (o : obj) k v : In (k, v) (own_entries o) -> v = prop o k.
Proof.
  unfold own_entries. rewrite in_map_iff. now intros [k' [[= -> ->] _]].
Qed.

Lemma own_entries_keys (o : obj) : map fst (own_entries o) = own_keys o.
Proof.
  unfold own_entries. rewrite map_map. simpl. apply map_id.
Qed.

Lemma In_own_entries (o : obj) k : In k (own_keys o) -> In (k, prop o k) (own_entries o).
Proof.
  intros H. unfold own_entries. apply in_map_iff. now exists k.
Qed.

(** *** The reduce that builds the registry *)

(** What the reduce stores for an entry, given what is stored already. *)
Definition merged_value (current : option jsval) (v : jsval) : jsval :=
  match current with
  | None => v
  | Some c => Object_assign c v
  end.

Lemma merge_entry_other (acc : obj) e k :
  fst e <> k -> obj_get (merge_entry acc e) k = obj_get acc k.
Proof.
  intros H. unfold merge_entry.
  destruct (obj_get acc (fst e)); now apply obj_get_set_other.
Qed.

Lemma merge_entry_same (acc : obj) k v :
  obj_get (merge_entry acc (k, v)) k = Some (merged_value (obj_get acc k) v).
Proof.
  unfold merge_entry. simpl. destruct (obj_get acc k); apply obj_get_set_same.
Qed.

Lemma fold_merge_skip (es : list (string * jsval)) (acc : obj) k :
  ~ In k (map fst es) ->
  obj_get (fold_left merge_entry es acc) k = obj_get acc k.
Proof. pure_js.
  revert acc. induction es as [|e es IH]; intros acc H; [reflexivity|].
  simpl in *. rewrite IH by tauto. apply merge_entry_other. tauto.
Qed.

Lemma in_split_keys (es : list (string * jsval)) k v :
  In (k, v) es -> NoDup (map fst es) ->
  exists l1 l2, es = (l1 ++ (k, v) :: l2)%list /\
                ~ In k (map fst l1) /\ ~ In k (map fst l2).
Proof. pure_js.
  intros Hin Hnd. apply in_split in Hin as [l1 [l2 ->]].
  exists l1, l2. split; [reflexivity|].
  rewrite map_app in Hnd. simpl in Hnd. apply NoDup_remove_2 in Hnd.
  rewrite in_app_iff in Hnd. tauto.
Qed.

Lemma fold_merge_get (es : list (string * jsval)) (acc : obj) k v :
  In (k, v) es -> NoDup (map fst es) ->
  obj_get (fold_left merge_entry es acc) k = Some (merged_value (obj_get acc k) v).
Proof.
  intros Hin Hnd. destruct (@in_split_keys _ _ _ Hin Hnd) as [l1 [l2 [-> [H1 H2]]]].
  rewrite fold_left_app. simpl.
  rewrite fold_merge_skip by assumption.
  rewrite merge_entry_same. now rewrite fold_merge_skip.
Qed.

Lemma NoDup_map_filter {A B} (g : A -> B) (f : A -> bool) (l : list A) :
  NoDup (map g l) -> NoDup (map g (filter f l)).
Proof.
  induction l as [|a l IH]; simpl; intros H; [constructor|].
  inversion H as [|? ? Ha Hl]; subst.
  destruct (f a); simpl; [|tauto]. constructor; [|tauto].
  rewrite in_map_iff in *. intros [x [E Hx]]. apply Ha.
  exists x. apply filter_In in Hx. tauto.
Qed.

(** *** Object.assign *)

Lemma fold_set_skip (es : list (string * jsval)) (t : obj) k :
  ~ In k (map fst es) ->
  obj_get (fold_left (fun t e => obj_set t (fst e) (snd e)) es t) k = obj_get t k.
Proof. pure_js.
  revert t. induction es as [|e es IH]; intros t H; [reflexivity|].
  simpl in *. rewrite IH by tauto. apply obj_get_set_other. tauto.
Qed.

Lemma fold_set_get (es : list (string * jsval)) (t : obj) k v :
  In (k, v) es -> NoDup (map fst es) ->
  obj_get (fold_left (fun t e => obj_set t (fst e) (snd e)) es t) k = Some v.
Proof.
  intros Hin Hnd. destruct (@in_split_keys _ _ _ Hin Hnd) as [l1 [l2 [-> [H1 H2]]]].
  rewrite fold_left_app. simpl.
  rewrite fold_set_skip by assumption. apply obj_get_set_same.
Qed.

(** Copying an object into an empty one keeps every property. *)
Lemma prop_assign_copy (b : obj) k : prop (assign_into [] (JObj b)) k = prop b k.
Proof.
  unfold assign_into, own_enumerable, prop at 1.
  destruct (obj_get b k) as [v|] eqn:E.
  - assert (Hk : In k (own_keys b)).
    { apply In_own_keys. destruct (in_dec string_dec k (map fst b)) as [H|H]; [exact H|].
      apply obj_get_None in H. congruence. }
    rewrite (@fold_set_get (own_entries b) [] k (prop b k)).
    + reflexivity.
    + now apply In_own_entries.
    + rewrite own_entries_keys. apply NoDup_own_keys.
  - rewrite fold_set_skip.
    + unfold prop. now rewrite E.
    + rewrite own_entries_keys, In_own_keys. now apply obj_get_None.
Qed.

(** The names of the six fields of a service. *)
Definition service_fields : list string :=
  ["regex"; "embedUrl"; "html"; "height"; "width"; "id"].

(** The literal of [pick_fields] for a plain object. *)
Definition picked (c : obj) : obj :=
  map (fun f => (f, prop c f)) service_fields.

Lemma pick_fields_obj (c : obj) : pick_fields (JObj c) = Ok (JObj (picked c)).
Proof. reflexivity. Qed.

(** [Object.assign({}, builtin, literal)]: the six fields are those of the
    literal, the others those of the builtin. *)
Lemma assign_picked (b c : obj) :
  exists m,
    Object_assign (JObj b) (JObj (picked c)) = JObj m /\
    (forall f, In f service_fields -> prop m f = prop c f) /\
    (forall f, ~ In f service_fields -> prop m f = prop b f).
Proof.
  eexists. split; [reflexivity|]. split.
  - intros f Hf. unfold assign_into at 1.
    change (own_enumerable (JObj (picked c))) with (picked c).
    unfold picked. simpl fold_left.
    simpl in Hf. destruct Hf as [<-|[<-|[<-|[<-|[<-|[<-|[]]]]]]];
      repeat (rewrite prop_set_other by discriminate); apply prop_set_same.
  - intros f Hf. unfold assign_into at 1.
    change (own_enumerable (JObj (picked c))) with (picked c).
    unfold picked. simpl fold_left. simpl in Hf.
    repeat (rewrite prop_set_other by (intro E; subst f; apply Hf; auto 10)).
    apply prop_assign_copy.
Qed.

(** *** The order of the registry's keys *)

Definition add_key (ks : list string) (k : string) : list string :=
  if includes ks k then ks else (ks ++ [k])%list.

Lemma keys_obj_set (o : obj) k v : map fst (obj_set o k v) = add_key (map fst o) k.
Proof.
  unfold add_key, includes. induction o as [|[k' v'] o IH]; simpl; [reflexivity|].
  rewrite (String.eqb_sym k k').
  destruct (String.eqb k' k) eqn:E; simpl.
  - apply String.eqb_eq in E. now subst.
  - rewrite IH. now destruct (existsb (String.eqb k) (map fst o)).
Qed.

Lemma keys_fold_merge (es : list (string * jsval)) (acc : obj) :
  map fst (fold_left merge_entry es acc) = fold_left add_key (map fst es) (map fst acc).
Proof.
  revert acc. induction es as [|e es IH]; intros acc; [reflexivity|].
  simpl. rewrite IH. f_equal. unfold merge_entry.
  destruct (obj_get acc (fst e)); apply keys_obj_set.
Qed.

Lemma filter_twice {A} (f g h : A -> bool) (l : list A) :
  (forall a, h a = g a && f a) -> filter f (filter g l) = filter h l.
Proof.
  intros H. induction l as [|a l IH]; simpl; [reflexivity|].
  rewrite H. destruct (g a); simpl; [|exact IH].
  destruct (f a); now rewrite IH.
Qed.

Lemma includes_app (l : list string) k y :
  includes (l ++ [k]) y = includes l y || String.eqb y k.
Proof.
  unfold includes. rewrite existsb_app. simpl. now rewrite orb_false_r.
Qed.

Lemma includes_In (l : list string) k : includes l k = true <-> In k l.
Proof.
  unfold includes. rewrite existsb_exists. split.
  - intros [x [H E]]. apply String.eqb_eq in E. now subst.
  - intros H. exists k. split; [assumption | apply String.eqb_refl].
Qed.

Lemma fold_add_key (ks l : list string) :
  fold_left add_key ks l
  = (l ++ filter (fun k => negb (includes l k)) (uniq ks))%list.
Proof.
  revert l. induction ks as [|k ks IH]; intros l; simpl.
  - now rewrite app_nil_r.
  - rewrite IH. unfold add_key. destruct (includes l k) eqn:E; simpl.
    + f_equal. symmetry. apply filter_twice. intros a.
      destruct (String.eqb k a) eqn:Ea; simpl; [|reflexivity].
      apply String.eqb_eq in Ea. subst a. now rewrite E.
    + rewrite <- app_assoc. simpl. do 2 f_equal. symmetry.
      apply filter_twice. intros a. rewrite includes_app, (String.eqb_sym a k).
      destruct (String.eqb k a), (includes l a); reflexivity.
Qed.

Lemma uniq_NoDup (l : list string) : NoDup l -> uniq l = l.
Proof.
  induction 1 as [|a l Ha Hl IH]; simpl; [reflexivity|].
  rewrite IH. f_equal. apply filter_all. intros b Hb.
  apply negb_true_iff. apply String.eqb_neq. congruence.
Qed.

(** *** The user's services *)

(** What a callback that does not throw keeps. *)
Definition kept {A} (f : A -> result bool) (a : A) : bool :=
  match f a with
  | Ok b => b
  | Throw _ => false
  end.

Lemma filterM_filter {A} (f : A -> result bool) (l l' : list A) :
  filterM f l = Ok l' -> l' = filter (kept f) l.
Proof.
  revert l'. induction l as [|a l IH]; simpl; intros l' H; [now injection H|].
  unfold kept at 1. destruct (f a) as [b|e]; simpl in H; [|discriminate].
  destruct (filterM f l) as [r|e]; simpl in H; [|discriminate].
  injection H as <-. now rewrite (IH r eq_refl).
Qed.

Lemma filterM_total {A} (f : A -> result bool) (l : list A) :
  (forall a, In a l -> exists b, f a = Ok b) -> exists l', filterM f l = Ok l'.
Proof.
  induction l as [|a l IH]; intros H; simpl; [now eexists|].
  destruct (H a (or_introl eq_refl)) as [b ->].
  destruct IH as [r ->]; [intros x Hx; apply H; now right|].
  simpl. now eexists.
Qed.

Lemma mapM_total {A B} (f : A -> result B) (l : list A) :
  (forall a, In a l -> exists b, f a = Ok b) -> exists l', mapM f l = Ok l'.
Proof.
  induction l as [|a l IH]; intros H; simpl; [now eexists|].
  destruct (H a (or_introl eq_refl)) as [b ->].
  destruct IH as [r ->]; [intros x Hx; apply H; now right|].
  simpl. now eexists.
Qed.

Lemma foldM_total {A B} (f : B -> A -> result B) (l : list A) (b : B) :
  (forall a, In a l -> forall x, exists y, f x a = Ok y) ->
  exists r, foldM f l b = Ok r.
Proof.
  revert b. induction l as [|a l IH]; intros b H; simpl; [now eexists|].
  destruct (H a (or_introl eq_refl) b) as [y ->]. simpl.
  apply IH. intros x Hx. apply H. now right.
Qed.

Lemma mapM_In {A B} (f : A -> result B) (l : list A) (l' : list B) :
  mapM f l = Ok l' ->
  forall b, In b l' <-> exists a, In a l /\ f a = Ok b.
Proof.
  revert l'. induction l as [|a l IH]; simpl; intros l' H b.
  - injection H as <-. simpl. split; [tauto | now intros [? [[] _]]].
  - destruct (f a) as [x|e] eqn:E; simpl in H; [|discriminate].
    destruct (mapM f l) as [r|e]; simpl in H; [|discriminate].
    injection H as <-. simpl. rewrite (IH r eq_refl). split.
    + intros [<-|[a' [H1 H2]]]; [exists a; tauto | exists a'; tauto].
    + intros [a' [[<-|H1] H2]]; [left; congruence | right; exists a'; tauto].
Qed.

Lemma mapM_keys {B} (f : string * jsval -> result (string * B)) l l' :
  (forall e e', f e = Ok e' -> fst e' = fst e) ->
  mapM f l = Ok l' -> map fst l' = map fst l.
Proof.
  intros Hf. revert l'. induction l as [|a l IH]; simpl; intros l' H.
  - now injection H as <-.
  - destruct (f a) as [x|e] eqn:E; simpl in H; [|discriminate].
    destruct (mapM f l) as [r|e]; simpl in H; [|discriminate].
    injection H as <-. simpl. now rewrite (Hf a x E), (IH r eq_refl).
Qed.

Lemma get_prop_ok (v : jsval) k :
  nullish v = false -> exists x, get_prop v k = Ok x.
Proof. destruct v; simpl; intros H; try discriminate; now eexists. Qed.

Lemma checkServiceConfig_returns (v : jsval) :
  nullish v = false -> exists isValid, checkServiceConfig v = Ok isValid.
Proof.
  intros H. unfold checkServiceConfig.
  destruct v; try discriminate; simpl; now eexists.
Qed.

Lemma pick_fields_returns (v : jsval) :
  nullish v = false -> exists o, pick_fields v = Ok (JObj o).
Proof.
  intros H. unfold pick_fields.
  destruct v; try discriminate; simpl; now eexists.
Qed.

Lemma pick_fields_key (e e' : string * jsval) :
  (o <- pick_fields (snd e);; Ok (fst e, o)) = Ok e' -> fst e' = fst e.
Proof.
  destruct (pick_fields (snd e)); simpl; [|discriminate]. now intros [= <-].
Qed.

Lemma typeof_object_nullish (v : jsval) :
  jstype_eqb (typeof v) TObject = true -> v <> JNull -> nullish v = false.
Proof. destruct v; simpl; intros H N; try discriminate; try reflexivity. now elim N. Qed.

(** The user's services are the entries of the configuration that are
    objects and pass the check, in their order. *)
Lemma userServices_In (given custom : list (string * jsval)) k c :
  userServices given = Ok custom ->
  (In (k, c) custom <->
   exists v, In (k, v) given /\ jstype_eqb (typeof v) TObject = true /\
             (exists isValid, checkServiceConfig v = Ok isValid /\ truthy isValid = true) /\
             pick_fields v = Ok c).
Proof.
  unfold userServices. intros H.
  destruct (filterM _ _) as [checked|e] eqn:F; simpl in H; [|discriminate].
  apply filterM_filter in F. rewrite (mapM_In _ _ H). subst checked. split.
  - intros [[k' v] [Hin Hp]]. simpl in Hp.
    destruct (pick_fields v) as [o|e] eqn:P; simpl in Hp; [|discriminate].
    injection Hp as -> ->. exists v.
    apply filter_In in Hin as [Hin K]. apply filter_In in Hin as [Hin T].
    simpl in *. unfold kept in K. simpl in K.
    destruct (checkServiceConfig v) as [iv|e]; simpl in K; [|discriminate].
    repeat split; auto. now exists iv.
  - intros [v [Hin [T [[iv [C V]] P]]]]. exists (k, v). split.
    + apply filter_In. split; [apply filter_In; split; assumption|].
      unfold kept. simpl. now rewrite C.
    + simpl. now rewrite P.
Qed.

Lemma userServices_NoDup (given custom : list (string * jsval)) :
  userServices given = Ok custom ->
  NoDup (map fst given) -> NoDup (map fst custom).
Proof.
  unfold userServices. intros H Hnd.
  destruct (filterM _ _) as [checked|e] eqn:F; simpl in H; [|discriminate].
  apply filterM_filter in F.
  rewrite (@mapM_keys _ _ _ _ pick_fields_key H). subst checked.
  now do 2 apply NoDup_map_filter.
Qed.

Lemma userServices_returns (given : list (string * jsval)) :
  (forall k v, In (k, v) given -> v <> JNull) ->
  exists custom, userServices given = Ok custom.
Proof.
  intros Hnull. unfold userServices.
  destruct (@filterM_total _
              (fun e => v <- checkServiceConfig (snd e);; Ok (truthy v))
              (filter (fun e => jstype_eqb (typeof (snd e)) TObject) given))
    as [checked F].
  { intros [k v] Hin. apply filter_In in Hin as [Hin T]. simpl in *.
    destruct (@checkServiceConfig_returns v) as [iv ->].
    - apply typeof_object_nullish; [assumption | now apply (Hnull k)].
    - simpl. now eexists. }
  rewrite F. simpl. apply mapM_total.
  intros [k v] Hin. apply filterM_filter in F. subst checked.
  apply filter_In in Hin as [Hin _]. apply filter_In in Hin as [Hin T]. simpl in *.
  destruct (@pick_fields_returns v) as [o ->].
  - apply typeof_object_nullish; [assumption | now apply (Hnull k)].
  - simpl. now eexists.
Qed.

Lemma surviving_NoDup enabled (entries : list (string * jsval)) :
  NoDup (map fst entries) -> NoDup (map fst (surviving enabled entries)).
Proof.
  intros H. unfold surviving. destruct enabled; [assumption|].
  now apply NoDup_map_filter.
Qed.

Lemma surviving_In enabled (entries : list (string * jsval)) e :
  In e (surviving enabled entries) -> In e entries.
Proof. pure_js.
  unfold surviving. destruct enabled; [tauto|]. rewrite filter_In. tauto.
Qed.

(** *** Registry resolution, for a catalogue and a configuration that are
    plain objects *)

Section Resolution.

Variables catalogue cfg given : obj.
Hypothesis catalogue_object : SERVICES = JObj catalogue.
Hypothesis services_object : prop cfg "services" = JObj given.

(** The catalogue entries that stay in the registry. *)
Definition builtins : list (string * jsval) :=
  surviving (enabledServices (own_entries given)) (own_entries catalogue).

Lemma resolved_entries_eq :
  resolved_entries (JObj cfg)
  = (custom <- userServices (own_entries given);; Ok (builtins ++ custom)%list).
Proof using catalogue_object services_object.
  unfold resolved_entries. simpl is_undefined. cbv iota.
  simpl get_prop. rewrite services_object, catalogue_object. reflexivity.
Qed.

Lemma prepare_inv (services patterns : obj) :
  prepare (JObj cfg) = Ok (services, patterns) ->
  exists custom,
    userServices (own_entries given) = Ok custom /\
    services = fold_left merge_entry (builtins ++ custom)%list [].
Proof using services_object catalogue_object.
  unfold prepare. rewrite resolved_entries_eq.
  destruct (userServices (own_entries given)) as [custom|e]; simpl; [|discriminate].
  destruct (foldM pattern_entry _ _) as [p|e]; simpl; [|discriminate].
  intros [= <- _]. now exists custom.
Qed.

Lemma builtins_NoDup : NoDup (map fst builtins).
Proof.
  apply surviving_NoDup. rewrite own_entries_keys. apply NoDup_own_keys.
Qed.

Lemma given_NoDup : NoDup (map fst (own_entries given)).
Proof. rewrite own_entries_keys. apply NoDup_own_keys. Qed.

(** Resolution returns when no builtin is [null] or [undefined] and the
    configuration holds no [null]. *)
Lemma prepare_returns :
  (forall k, In k (own_keys catalogue) -> nullish (prop catalogue k) = false) ->
  (forall k, In k (own_keys given) -> prop given k <> JNull) ->
  exists services patterns, prepare (JObj cfg) = Ok (services, patterns).
Proof using services_object catalogue_object.
  intros Hcat Hgiven. unfold prepare. rewrite resolved_entries_eq.
  destruct (@userServices_returns (own_entries given)) as [custom U].
  { intros k v Hin. rewrite (own_entries_value _ _ _ Hin). apply Hgiven.
    rewrite <- own_entries_keys. apply in_map_iff. now exists (k, v). }
  rewrite U. simpl.
  destruct (@foldM_total _ _ pattern_entry (builtins ++ custom)%list []) as [p ->].
  - intros [k v] Hin acc. unfold pattern_entry. simpl.
    destruct (@get_prop_ok v "regex") as [x ->]; [|simpl; now eexists].
    apply in_app_iff in Hin as [Hin|Hin].
    + apply surviving_In in Hin. rewrite (own_entries_value _ _ _ Hin). apply Hcat.
      rewrite <- own_entries_keys. apply in_map_iff. now exists (k, v).
    + apply (userServices_In _ k v U) in Hin as [v' [Hin [T [_ P]]]].
      destruct (@pick_fields_returns v') as [o Ho].
      * apply typeof_object_nullish; [assumption|].
        rewrite (own_entries_value _ _ _ Hin). apply Hgiven.
        rewrite <- own_entries_keys. apply in_map_iff. now exists (k, v').
      * rewrite Ho in P. now injection P as <-.
  - simpl. now do 2 eexists.
Qed.

(** A definition that does not pass the check leaves no trace: under its
    key the registry holds what the catalogue gives there, or nothing. *)
Lemma invalid_custom_dropped (services patterns : obj) k isValid :
  prepare (JObj cfg) = Ok (services, patterns) ->
  checkServiceConfig (prop given k) = Ok isValid ->
  truthy isValid = false ->
  (forall b, In (k, b) builtins -> obj_get services k = Some b) /\
  (~ In k (map fst builtins) -> obj_get services k = None).
Proof using services_object catalogue_object.
  intros Hp Hc Hv. destruct (prepare_inv Hp) as [custom [U ->]].
  assert (Hk : ~ In k (map fst custom)).
  { rewrite in_map_iff. intros [[k' c] [E Hin]]. simpl in E. subst k'.
    apply (userServices_In _ k c U) in Hin as [v [Hin [_ [[iv [C V]] _]]]].
    rewrite (own_entries_value _ _ _ Hin) in C. congruence. }
  rewrite fold_left_app. split.
  - intros b Hb. rewrite fold_merge_skip by assumption.
    now rewrite (@fold_merge_get _ [] _ _ Hb builtins_NoDup).
  - intros Hb. now rewrite !fold_merge_skip.
Qed.

(** A definition that passes the check, under the key of a builtin that
    stays: the registry holds the six fields as the definition has them,
    [undefined] where it has none, and any other field of the builtin. *)
Lemma valid_custom_overrides (services patterns : obj) k (b c : obj) isValid :
  prepare (JObj cfg) = Ok (services, patterns) ->
  In (k, JObj b) builtins ->
  In k (own_keys given) ->
  prop given k = JObj c ->
  checkServiceConfig (JObj c) = Ok isValid ->
  truthy isValid = true ->
  exists m,
    prop services k = JObj m /\
    (forall f, In f service_fields -> prop m f = prop c f) /\
    (forall f, ~ In f service_fields -> prop m f = prop b f).
Proof using services_object catalogue_object.
  intros Hp Hb Hk Hc Hchk Hv. destruct (prepare_inv Hp) as [custom [U ->]].
  assert (Hin : In (k, JObj (picked c)) custom).
  { apply (userServices_In _ k (JObj (picked c)) U). exists (JObj c).
    repeat split.
    - rewrite <- Hc. now apply In_own_entries.
    - now exists isValid. }
  destruct (assign_picked b c) as [m [Hm Hf]]. exists m. split; [|exact Hf].
  unfold prop. rewrite fold_left_app.
  rewrite (@fold_merge_get _ _ _ _ Hin (@userServices_NoDup _ _ U given_NoDup)).
  rewrite (@fold_merge_get _ [] _ _ Hb builtins_NoDup). simpl. exact Hm.
Qed.

(** A definition that passes the check under a new key is stored as the
    literal of its six fields. *)
Lemma valid_custom_added (services patterns : obj) k (c : obj) isValid :
  prepare (JObj cfg) = Ok (services, patterns) ->
  ~ In k (map fst builtins) ->
  In k (own_keys given) ->
  prop given k = JObj c ->
  checkServiceConfig (JObj c) = Ok isValid ->
  truthy isValid = true ->
  prop services k = JObj (picked c).
Proof using services_object catalogue_object.
  intros Hp Hb Hk Hc Hchk Hv. destruct (prepare_inv Hp) as [custom [U ->]].
  assert (Hin : In (k, JObj (picked c)) custom).
  { apply (userServices_In _ k (JObj (picked c)) U). exists (JObj c).
    repeat split.
    - rewrite <- Hc. now apply In_own_entries.
    - now exists isValid. }
  unfold prop. rewrite fold_left_app.
  rewrite (@fold_merge_get _ _ _ _ Hin (@userServices_NoDup _ _ U given_NoDup)).
  now rewrite fold_merge_skip.
Qed.

(** The registry has the keys of the catalogue that stay, in the order of
    the catalogue, and after them the new keys of the user's services, in
    the order of the configuration; where no key is an array index, this
    is the order in which the matcher visits them. *)
Lemma registry_order (services patterns : obj) :
  prepare (JObj cfg) = Ok (services, patterns) ->
  exists custom,
    userServices (own_entries given) = Ok custom /\
    map fst services
    = (map fst builtins
       ++ filter (fun k => negb (includes (map fst builtins) k)) (map fst custom))%list /\
    ((forall k, In k (map fst services) -> is_index k = false) ->
     own_keys services = map fst services).
Proof using services_object catalogue_object.
  intros Hp. destruct (prepare_inv Hp) as [custom [U ->]].
  exists custom. split; [exact U|].
  assert (K : map fst (fold_left merge_entry (builtins ++ custom)%list [])
              = (map fst builtins
                 ++ filter (fun k => negb (includes (map fst builtins) k))
                      (map fst custom))%list).
  { rewrite keys_fold_merge, map_app, fold_left_app. simpl.
    rewrite (fold_add_key (map fst builtins) []). simpl.
    rewrite (filter_all _ (uniq (map fst builtins))) by reflexivity.
    rewrite fold_add_key.
    rewrite (uniq_NoDup builtins_NoDup).
    now rewrite (uniq_NoDup (@userServices_NoDup _ _ U given_NoDup)). }
  split; [exact K|].
  intros Hi. rewrite own_keys_creation_order by assumption.
  apply uniq_NoDup. rewrite K. apply NoDup_app.
  - apply builtins_NoDup.
  - apply NoDup_filter. apply (@userServices_NoDup _ _ U given_NoDup).
  - intros k H1 H2. apply filter_In in H2 as [_ H2].
    apply includes_In in H1. rewrite H1 in H2. discriminate.
Qed.


End Resolution.

(** ** Further properties of the code *)

(** *** The check of a user service *)

Definition nonempty_string (v : jsval) : bool :=
  match v with
  | JStr s => negb (String.eqb s "")
  | _ => false
  end.

(** What [checkServiceConfig] asks of a definition. *)
Definition valid_service (c : obj) : bool :=
  instanceof_RegExp (prop c "regex")
  && nonempty_string (prop c "embedUrl")
  && nonempty_string (prop c "html")
  && (is_undefined (prop c "id") || instanceof_Function (prop c "id"))
  && (is_undefined (prop c "height") || CSS_supports "height" (prop c "height"))
  && (is_undefined (prop c "width") || CSS_supports "width" (prop c "width")).

Lemma truthy_js_and (a b : jsval) : truthy (js_and a b) = truthy a && truthy b.
Proof. unfold js_and. destruct (truthy a) eqn:E; simpl; [reflexivity | exact E]. Qed.

Lemma truthy_RegExp (v : jsval) :
  truthy v && instanceof_RegExp v = instanceof_RegExp v.
Proof. destruct v; simpl; try reflexivity; apply andb_false_r. Qed.

Lemma truthy_string (v : jsval) :
  truthy v && jstype_eqb (typeof v) TString = nonempty_string v.
Proof. destruct v; simpl; try reflexivity; try apply andb_false_r. apply andb_true_r. Qed.

Lemma checkServiceConfig_object (c : obj) :
  exists isValid,
    checkServiceConfig (JObj c) = Ok isValid /\ truthy isValid = valid_service c.
Proof.
  eexists. split; [reflexivity|]. cbn [field].
  rewrite !truthy_js_and. cbn [truthy].
  rewrite truthy_RegExp.
  rewrite <- (andb_assoc _ (truthy (prop c "embedUrl"))), truthy_string.
  rewrite <- (andb_assoc _ (truthy (prop c "html"))), truthy_string.
  unfold valid_service.
  destruct (is_undefined (prop c "id")), (is_undefined (prop c "height")),
    (is_undefined (prop c "width")); reflexivity.
Qed.

(** A value that passes the check is a plain object. *)
Lemma checkServiceConfig_truthy (v isValid : jsval) :
  checkServiceConfig v = Ok isValid -> truthy isValid = true ->
  exists c, v = JObj c /\ valid_service c = true.
Proof.
  intros H T. destruct v; try discriminate H;
    try (injection H as <-; discriminate T).
  exists props. split; [reflexivity|].
  destruct (checkServiceConfig_object props) as [iv [E <-]]. congruence.
Qed.

(** X1: for a plain object, [checkServiceConfig] does not throw, and what it
    returns is truthy exactly when the regex is a RegExp, embedUrl and html
    are strings that are not empty, id is absent or a function, and height
    and width are absent or accepted by [CSS.supports]. *)
Theorem service_check_decides (c : obj) :
  exists isValid,
    checkServiceConfig (JObj c) = Ok isValid /\
    (truthy isValid = true <->
     instanceof_RegExp (prop c "regex") = true /\
     nonempty_string (prop c "embedUrl") = true /\
     nonempty_string (prop c "html") = true /\
     (prop c "id" = JUndefined \/ instanceof_Function (prop c "id") = true) /\
     (prop c "height" = JUndefined \/ CSS_supports "height" (prop c "height") = true) /\
     (prop c "width" = JUndefined \/ CSS_supports "width" (prop c "width") = true)).
Proof.
  destruct (checkServiceConfig_object c) as [iv [E T]].
  exists iv. split; [exact E|]. rewrite T. unfold valid_service.
  rewrite !andb_true_iff, !orb_true_iff.
  assert (U : forall v, is_undefined v = true <-> v = JUndefined)
    by (intros v; destruct v; simpl; split; congruence).
  rewrite !U. tauto.
Qed.

(** *** What the matcher returns *)

Lemma candidate_empty (str : string) : candidate str = "" -> str = "".
Proof.
  pure_js. unfold candidate. destruct (iframe_src str) as [u|]; [|tauto].
  destruct (String.eqb u "") eqn:E; [tauto|].
  intros ->. discriminate.
Qed.

Lemma first_match_result (o : obj) url keys v :
  first_match o url keys = Ok v ->
  (v = JNull /\ forall k, In k keys -> pattern_test o k url = Ok false) \/
  (exists before key after,
     keys = (before ++ key :: after)%list /\
     (forall k, In k before -> pattern_test o k url = Ok false) /\
     pattern_test o key url = Ok true /\
     v = composePasteEventMock key url).
Proof.
  pure_js. revert v. induction keys as [|k keys IH]; intros v H.
  - injection H as <-. left. split; [reflexivity | intros k []].
  - simpl in H.
    destruct (pattern_test o k url) as [[|]|e] eqn:T; simpl in H; [| |discriminate].
    + injection H as <-. right. exists [], k, keys.
      repeat split; [intros k' [] | exact T].
    + destruct (IH v H) as [[-> Hall]|[before [key [after [-> [Hb [Hk ->]]]]]]].
      * left. split; [reflexivity|]. intros k' [<-|Hk']; [exact T | now apply Hall].
      * right. exists (k :: before), key, after. repeat split; try assumption.
        intros k' [<-|Hk']; [exact T | now apply Hb].
Qed.

(** X2: whatever [matchService] returns says how the loop went.  It returns
    [undefined] for the empty string only; [null] only when the body of the
    loop stopped at no key, the pattern of every key tested negative; and
    an event only for the first key, in the order of enumeration, whose
    pattern tested positive, with the candidate URL as its data. *)
Theorem match_result_sound (o : obj) (str : string) v :
  matchService (Some o) str = Ok v ->
  (v = JUndefined /\ str = "") \/
  (v = JNull /\ str <> "" /\
   forall k, In k (own_keys o) -> pattern_test o k (candidate str) = Ok false) \/
  (exists before key after,
     own_keys o = (before ++ key :: after)%list /\
     (forall k, In k before -> pattern_test o k (candidate str) = Ok false) /\
     pattern_test o key (candidate str) = Ok true /\
     v = composePasteEventMock key (candidate str) /\
     candidate str <> "").
Proof.
  pure_js. unfold matchService. destruct (String.eqb (candidate str) "") eqn:E.
  - apply String.eqb_eq in E. intros [= <-]. left.
    split; [reflexivity | now apply candidate_empty].
  - apply String.eqb_neq in E. intros H. right.
    destruct (first_match_result _ _ _ H) as [[-> Hall]|[b [k [a [Hk [Hb [Ht ->]]]]]]].
    + left. repeat split; [|assumption]. intros ->. now apply E.
    + right. exists b, k, a. now repeat split.
Qed.

(** The loop does not throw when its body throws at no key. *)
Lemma first_match_returns (o : obj) url keys :
  (forall k, In k keys -> exists b, pattern_test o k url = Ok b) ->
  exists v, first_match o url keys = Ok v.
Proof.
  pure_js. induction keys as [|k keys IH]; intros H; [now eexists|].
  destruct (H k (or_introl eq_refl)) as [b Hb]. simpl. rewrite Hb. simpl.
  destruct b; [now eexists|].
  apply IH. intros k' Hk'. apply H. now right.
Qed.

(** *** The quotes of the iframe pattern *)

(** A src value between two quotes [q]: no [q] and no line terminator. *)
Fixpoint quotable_with (q : ascii) (u : string) : bool :=
  match u with
  | "" => true
  | String c r => negb (Ascii.eqb c q) && negb (line_terminator c) && quotable_with q r
  end.

Lemma src_group_between (q : ascii) (u tail acc : string) :
  u <> "" -> quotable_with q u = true -> tail_matches tail = true ->
  src_group q acc (u ++ String q tail) = Some (acc ++ u).
Proof.
  pure_js. revert acc. induction u as [|c u IH]; intros acc Hne Hq Ht; [contradiction|].
  simpl in Hq. apply andb_prop in Hq as [Hq Hu]. apply andb_prop in Hq as [Hc Hl].
  apply negb_true_iff in Hc, Hl.
  change (String c u ++ String q tail) with (String c (u ++ String q tail)).
  cbn [src_group]. rewrite Hl.
  destruct u as [|c2 u].
  - cbn [append]. rewrite Ascii.eqb_refl, Ht. reflexivity.
  - assert (E : Ascii.eqb c2 q = false).
    { simpl in Hu. apply andb_prop in Hu as [Hu _]. apply andb_prop in Hu as [Hu _].
      now apply negb_true_iff in Hu. }
    change (String c2 u ++ String q tail) with (String c2 (u ++ String q tail)).
    cbv iota beta. rewrite E. cbn [andb].
    change (String c2 (u ++ String q tail)) with (String c2 u ++ String q tail).
    rewrite IH; [|discriminate|assumption|assumption].
    now rewrite append_assoc.
Qed.

(** The markup around a src value, with [q] as the quote on both sides. *)
Definition wrap_with (q : ascii) (u : string) : string :=
  "<iframe src=" ++ String q (u ++ String q "></iframe>").

(** X3: the pattern takes three characters as the quote of the src value:
    the single quote, the double quote and the bar.  With any of them on
    both sides, a value that is not empty and holds neither that quote nor a
    line terminator becomes the candidate URL. *)
Theorem any_quote_unwraps (q : ascii) (u : string) :
  quote_class q = true ->
  u <> "" ->
  quotable_with q u = true ->
  iframe_src (wrap_with q u) = Some u /\ candidate (wrap_with q u) = u.
Proof.
  pure_js. intros Hq Hne Hu.
  assert (G : src_group q "" (u ++ String q "></iframe>") = Some u)
    by now rewrite src_group_between.
  assert (A : src_attribute (" src=" ++ String q (u ++ String q "></iframe>")) = Some u).
  { cbn [append]. unfold src_attribute.
    change (white_space " ") with true. cbv iota.
    change (strip_prefix "src=" (String "s" (String "r" (String "c" (String "="
              (String q (u ++ String q "></iframe>")))))))
      with (Some (String q (u ++ String q "></iframe>"))).
    cbv iota. rewrite Hq. exact G. }
  assert (I : iframe_src (wrap_with q u) = Some u).
  { unfold wrap_with.
    change ("<iframe src=" ++ String q (u ++ String q "></iframe>"))
      with ("<iframe" ++ (" src=" ++ String q (u ++ String q "></iframe>"))).
    cbn [append]. cbn [iframe_src]. unfold iframe_at.
    match goal with
    | |- context [strip_prefix "<iframe" ?x] =>
        change (strip_prefix "<iframe" x)
          with (Some (String " " (String "s" (String "r" (String "c" (String "="
                  (String q (u ++ String q "></iframe>"))))))))
    end.
    cbv iota. cbn [lazy_gap].
    cbn [append] in A. rewrite A. reflexivity. }
  split; [exact I|]. unfold candidate. rewrite I.
  destruct (String.eqb u "") eqn:E; [|reflexivity].
  apply String.eqb_eq in E. contradiction.
Qed.

(** *** The record of a paste *)

(** X4: when the pattern of the service matches the URL, the id taken from
    the groups is a string without a dollar sign, and the template is made
    of segments around placeholders, the embed URL of the record has the id
    in place of every placeholder, and the record names the service and the
    URL and carries the width and height of the service. *)
Theorem id_fills_every_placeholder (o s : obj) (key url id : string)
    r segments groups extract :
  prop o key = JObj s ->
  prop s "regex" = JRegExp r ->
  prop s "embedUrl" = JStr (join placeholder segments) ->
  Forall (fun seg => occurs placeholder seg = false) segments ->
  re_exec r url = Some groups ->
  extractor (prop s "id") = Ok extract ->
  extract groups = Some id ->
  has_char "$" id = false ->
  service_record (Some o) (composePasteEventMock key url)
  = Ok (JObj [("service", JStr key); ("source", JStr url);
              ("embed", JStr (join id segments));
              ("width", prop s "width"); ("height", prop s "height")]).
Proof.
  pure_js. intros Ho Hr Ht Hs Hx Hid Hc Hd.
  rewrite (@service_record_ok o s key url r _ groups extract Ho Hr Ht Hx Hid).
  unfold replace_remote_id, paste_record. rewrite Hc. cbn [capture_text].
  now rewrite replace_from_join.
Qed.

(** What stands for a registry without a usable service under a key. *)
Definition no_service (services : registry) (key : string) : Prop :=
  services = None \/
  exists o, services = Some o /\ nullish (prop o key) = true.

(** X5: a paste event for a key under which the registry holds nothing, or
    for a URL that the pattern of the service does not match, makes
    [performServices] throw a TypeError, and the tool is left as it was. *)
Theorem paste_without_match_throws services (w : Embed) (key url : string) :
  no_service services key \/
  (exists o s r, services = Some o /\ prop o key = JObj s /\
                 prop s "regex" = JRegExp r /\ re_exec r url = None) ->
  performServices services w (composePasteEventMock key url) = Raises TypeError w.
Proof.
  intros H. unfold performServices.
  assert (E : service_record services (composePasteEventMock key url) = Throw TypeError).
  { unfold service_record.
    change (get_prop (composePasteEventMock key url) "detail")
      with (Ok (JObj [("key", JStr key); ("data", JStr url)])).
    cbn [bind].
    change (get_prop (JObj [("key", JStr key); ("data", JStr url)]) "key")
      with (Ok (JStr key)).
    change (get_prop (JObj [("key", JStr key); ("data", JStr url)]) "data")
      with (Ok (JStr url)).
    cbn [bind].
    destruct H as [[->|[o [-> N]]]|[o [s [r [-> [Ho [Hr Hx]]]]]]].
    - reflexivity.
    - cbn [lookup ToString bind]. destruct (prop o key); try discriminate; reflexivity.
    - cbn [lookup ToString bind]. rewrite Ho. cbn [get_prop field bind]. rewrite Hr.
      destruct (prop s "embedUrl"); try reflexivity.
      cbn [ToString]. now rewrite Hx. }
  now rewrite E.
Qed.

(** A service as the matcher and the paste need it: an object with a RegExp,
    a template that is a string, and an id that is absent or a function. *)
Definition usable_service (v : jsval) : Prop :=
  exists s r template,
    v = JObj s /\ prop s "regex" = JRegExp r /\ prop s "embedUrl" = JStr template /\
    (prop s "id" = JUndefined \/ exists f, prop s "id" = JFun f).

Lemma own_key_found (o : obj) k :
  In k (own_keys o) -> exists v, obj_get o k = Some v.
Proof.
  pure_js. intros H. apply In_own_keys in H.
  destruct (obj_get o k) as [v|] eqn:E; [now exists v|].
  apply obj_get_None in E. contradiction.
Qed.

Lemma usable_pattern_test (o : obj) k url :
  obj_get o "hasOwnProperty" = None ->
  In k (own_keys o) ->
  usable_service (prop o k) -> exists b, pattern_test o k url = Ok b.
Proof.
  pure_js. intros Hown Hk [s [r [t [Hv [Hr _]]]]].
  unfold pattern_test, hasOwnProperty. rewrite Hown.
  destruct (own_key_found _ _ Hk) as [v ->]. cbn [bind].
  rewrite Hv. cbn [get_prop field bind]. rewrite Hr. now eexists.
Qed.

Lemma usable_registry_matches (o : obj) (str : string) :
  obj_get o "hasOwnProperty" = None ->
  (forall k, In k (own_keys o) -> usable_service (prop o k)) ->
  exists v, matchService (Some o) str = Ok v.
Proof.
  pure_js. intros Hown Hwf.
  unfold matchService. destruct (String.eqb (candidate str) ""); [now eexists|].
  apply first_match_returns. intros k Hk.
  apply usable_pattern_test; [assumption | assumption | now apply Hwf].
Qed.

(** X6: on a registry that has no property named [hasOwnProperty] of its
    own and in which every service is usable, the matcher does not throw,
    whatever the input. *)
Theorem usable_registry_never_throws (o : obj) (str : string) :
  obj_get o "hasOwnProperty" = None ->
  (forall k, In k (own_keys o) -> usable_service (prop o k)) ->
  exists v, matchService (Some o) str = Ok v.
Proof. exact (usable_registry_matches o str). Qed.

(** *** The record and the view *)

Lemma render_element_on_throw services (w : Embed) e w' :
  render services w = Raises e w' -> element w' = element w.
Proof.
  unfold render. pose proof (get_data_element w) as G.
  destruct (get_data w) as [d w1]. simpl in G.
  destruct (negb (truthy (prop d "service"))); [discriminate|].
  destruct (s <- lookup services (prop d "service");; get_prop s "html") as [h|e0].
  - destruct h; try (now intros [= _ <-]).
    destruct (first_element s); [discriminate | now intros [= _ <-]].
  - now intros [= _ <-].
Qed.

(** X7: when an update with an object throws, the record has been merged
    all the same and the old view is still in place: nothing is rolled
    back. *)
Theorem failed_update_keeps_merge services (w : Embed) data e w' :
  set_data services w data = Raises e w' ->
  instanceof_Object data = true ->
  element w' = element w /\
  forall k, In k record_fields ->
    prop (_data w') k = js_or (field data k) (prop (_data w) k).
Proof.
  intros H Hobj. split.
  - revert H. unfold set_data. rewrite Hobj. simpl negb. cbv iota.
    destruct (element w) as [oldView|] eqn:El; [|discriminate].
    destruct (parentNode oldView).
    + match goal with |- context [render services ?x] =>
        destruct (render services x) as [c w2|e2 w2] eqn:R end; [discriminate|].
      intros [= _ <-]. now rewrite (render_element_on_throw _ _ R).
    + now intros [= _ <-].
  - intros k Hk. rewrite <- (set_data_field services w data Hobj Hk).
    now rewrite H.
Qed.

(** X8: the setter keeps no caption.  After an update on a tool without a
    view the record has no caption property, whatever the update holds, so
    a record saved with a caption comes back from the constructor without
    it. *)
Theorem caption_is_not_kept services (w : Embed) data :
  instanceof_Object data = true ->
  element w = None ->
  exists w',
    set_data services w data = Returns tt w' /\
    element w' = None /\
    obj_get (fst (save w')) "caption" = None.
Proof.
  intros Hobj Hel. rewrite set_data_detached by assumption.
  eexists. split; [reflexivity|]. split; reflexivity.
Qed.

(** X9: with a view in place, [save] reads the caption off the view: the
    text of its caption node, or the empty string when it has none.  It
    changes none of the five fields and not the view, and saving twice
    gives the same record. *)
Theorem save_reads_caption (w : Embed) v :
  element w = Some v ->
  prop (fst (save w)) "caption"
  = JStr (match caption_node v with Some h => h | None => "" end) /\
  (forall k, In k record_fields -> prop (fst (save w)) k = prop (_data w) k) /\
  element (snd (save w)) = element w /\
  save (snd (save w)) = save w.
Proof.
  pure_js. intros Hel. unfold save. split; [|split; [|split]].
  - unfold get_data. rewrite Hel. simpl. apply prop_set_same.
  - intros k Hk. apply get_data_prop. now apply record_field_not_caption.
  - apply get_data_element.
  - set (c := JStr match caption_node v with Some h => h | None => "" end).
    assert (I : forall d, obj_set (obj_set d "caption" c) "caption" c = obj_set d "caption" c).
    { induction d as [|[k x] d IH]; simpl.
      - reflexivity.
      - destruct (String.eqb k "caption") eqn:E; simpl.
        + reflexivity.
        + rewrite E. now rewrite IH. }
    assert (G : get_data w
                = (obj_set (_data w) "caption" c,
                   {| _data := obj_set (_data w) "caption" c; element := Some v;
                      inputHolder := inputHolder w |}))
      by (unfold get_data; rewrite Hel; reflexivity).
    rewrite G. cbn [snd]. unfold get_data. cbn [element _data caption_node].
    fold c. now rewrite I.
Qed.

(** X10: no tool ever holds 0, the empty string, [null], [false] or NaN in
    one of the five fields of its record: each field is [undefined] or
    truthy. *)
Theorem record_fields_never_falsy (w : Embed) k :
  reachable w ->
  In k record_fields ->
  prop (_data w) k = JUndefined \/ truthy (prop (_data w) k) = true.
Proof.
  intros Hw Hk. pose proof (reachable_settled Hw) as S. specialize (S k Hk).
  destruct (truthy (prop (_data w) k)); [now right | left; now apply S].
Qed.

(** X11: a record whose service is not in the registry cannot be rendered:
    [render] throws a TypeError and the tool keeps the view it had. *)
Theorem render_unknown_service_throws services (w : Embed) :
  truthy (prop (_data w) "service") = true ->
  no_service services (ToString (prop (_data w) "service")) ->
  exists w',
    render services w = Raises TypeError w' /\
    element w' = element w /\
    forall k, In k record_fields -> prop (_data w') k = prop (_data w) k.
Proof.
  intros T N.
  assert (R : exists w', render services w = Raises TypeError w').
  { unfold render. pose proof (get_data_prop w (k := "service")) as P.
    destruct (get_data w) as [d w1]. simpl in P.
    rewrite P by discriminate. rewrite T. simpl negb. cbv iota.
    destruct N as [->|[o [-> N]]].
    - now eexists.
    - cbn [lookup bind].
      destruct (prop o (ToString (prop (_data w) "service"))); try discriminate;
        now eexists. }
  destruct R as [w' R]. exists w'. split; [exact R|]. split.
  - exact (render_element_on_throw _ _ R).
  - intros k Hk. pose proof (render_data services w) as D. rewrite R in D.
    simpl in D. rewrite D. apply get_data_prop. now apply record_field_not_caption.
Qed.

(** *** From the input to the view *)

Lemma performServices_sets services (w : Embed) event data :
  service_record services event = Ok data ->
  performServices services w event = set_data services w data.
Proof. intros H. unfold performServices. now rewrite H. Qed.

(** X12: a paste goes through the same merge as any update, so the size of
    a service that declares none does not clear the size of the record:
    the width and the height stay as they were, and they are those of the
    service when it has them. *)
Theorem paste_keeps_previous_size (o s : obj) (w : Embed) (key url : string)
    r template groups extract k :
  prop o key = JObj s ->
  prop s "regex" = JRegExp r ->
  prop s "embedUrl" = JStr template ->
  re_exec r url = Some groups ->
  extractor (prop s "id") = Ok extract ->
  k = "width" \/ k = "height" ->
  let w' := state_of (performServices (Some o) w (composePasteEventMock key url)) in
  (truthy (prop s k) = false -> prop (_data w') k = prop (_data w) k) /\
  (truthy (prop s k) = true -> prop (_data w') k = prop s k).
Proof.
  intros Ho Hr Ht Hx Hid Hk w'. subst w'.
  rewrite (@performServices_sets (Some o) w _ _
             (@service_record_ok o s key url r template groups extract Ho Hr Ht Hx Hid)).
  assert (Hin : In k record_fields) by (destruct Hk as [->| ->]; simpl; auto 10).
  rewrite set_data_field by (reflexivity || assumption).
  assert (F : field (paste_record key url
                       (replace_remote_id template (capture_text (extract groups))) s) k
              = prop s k) by (destruct Hk as [->| ->]; reflexivity).
  rewrite F. unfold js_or. split; now intros ->.
Qed.

(** X13: a successful check on a tool whose view is in the document puts
    the frame of the service in its place.  When the input matches the
    service under [key], whose template gives an embed URL that is not
    empty and whose frame template starts with an element, [startChecking]
    returns with the record naming the service, the URL and the embed URL,
    and with a view that shows the frame with this embed URL as its src. *)
Theorem check_shows_frame (o s : obj) (w : Embed) (str key url : string) v
    r template html groups extract :
  element w = Some v ->
  parentNode v = true ->
  matchService (Some o) str = Ok (composePasteEventMock key url) ->
  key <> "" ->
  prop o key = JObj s ->
  prop s "regex" = JRegExp r ->
  prop s "embedUrl" = JStr template ->
  prop s "html" = JStr html ->
  first_element html = true ->
  re_exec r url = Some groups ->
  extractor (prop s "id") = Ok extract ->
  let embed := replace_remote_id template (capture_text (extract groups)) in
  embed <> "" ->
  exists w',
    startChecking (Some o) w str = Returns true w' /\
    prop (_data w') "service" = JStr key /\
    prop (_data w') "source" = JStr url /\
    prop (_data w') "embed" = JStr embed /\
    element w'
    = Some {| shown := Frame html (JStr embed) (JStr url);
              caption_node := caption_in html;
              parentNode := true |}.
Proof.
  intros Hel Hpar Hm Hkey Ho Hr Ht Hh Hfe Hx Hid embed Hembed.
  assert (Hurl : url <> "").
  { unfold matchService in Hm.
    destruct (String.eqb (candidate str) "") eqn:E; [discriminate|].
    apply String.eqb_neq in E.
    destruct (first_match_result _ _ _ Hm) as [[H _]|[b [k [a [_ [_ [_ H]]]]]]];
      [discriminate|].
    injection H as _ Hu. rewrite Hu. exact E. }
  assert (Tk : forall x, js_or (JStr key) x = JStr key).
  { intros x. unfold js_or. simpl. destruct (String.eqb key "") eqn:E; [|reflexivity].
    apply String.eqb_eq in E. contradiction. }
  assert (Tu : forall x, js_or (JStr url) x = JStr url).
  { intros x. unfold js_or. simpl. destruct (String.eqb url "") eqn:E; [|reflexivity].
    apply String.eqb_eq in E. contradiction. }
  assert (Te : forall x, js_or (JStr embed) x = JStr embed).
  { intros x. unfold js_or. simpl. destruct (String.eqb embed "") eqn:E; [|reflexivity].
    apply String.eqb_eq in E. contradiction. }
  unfold startChecking. rewrite Hm. cbn [truthy composePasteEventMock].
  fold (composePasteEventMock key url).
  rewrite (@performServices_sets (Some o) w _ _
             (@service_record_ok o s key url r template groups extract Ho Hr Ht Hx Hid)).
  fold embed. unfold set_data, paste_record. cbn [instanceof_Object negb].
  rewrite !get_data_prop by discriminate. rewrite Hel, Hpar.
  cbn [field prop obj_get String.eqb Ascii.eqb Bool.eqb].
  rewrite Tk, Tu, Te.
  unfold render, get_data. cbn [element _data].
  set (c := JStr match caption_node v with Some h => h | None => "" end).
  cbn [obj_set String.eqb Ascii.eqb Bool.eqb prop obj_get fst snd].
  cbn [truthy]. destruct (String.eqb key "") eqn:E;
    [apply String.eqb_eq in E; contradiction|].
  cbn [negb lookup ToString bind]. rewrite Ho. cbn [get_prop field bind]. rewrite Hh, Hfe.
  eexists. split; [reflexivity|]. cbn [_data element replaced shown caption_node].
  repeat split.
Qed.

(** *** The resolved registry *)

Lemma foldM_app {A B} (f : B -> A -> result B) (l1 l2 : list A) (b : B) :
  foldM f (l1 ++ l2)%list b = (x <- foldM f l1 b;; foldM f l2 x).
Proof.
  pure_js. revert b. induction l1 as [|a l1 IH]; intros b; [reflexivity|].
  simpl. destruct (f b a); simpl; [apply IH | reflexivity].
Qed.

Lemma patterns_skip (es : list (string * jsval)) (acc p : obj) k :
  foldM pattern_entry es acc = Ok p ->
  ~ In k (map fst es) -> obj_get p k = obj_get acc k.
Proof.
  pure_js. revert acc. induction es as [|e es IH]; intros acc H N.
  - now injection H as <-.
  - simpl in H. unfold pattern_entry at 1 in H.
    destruct (get_prop (snd e) "regex") as [x|?]; simpl in H; [|discriminate].
    simpl in N. rewrite (IH _ H) by tauto. apply obj_get_set_other. tauto.
Qed.

Lemma patterns_get (es : list (string * jsval)) (acc p : obj) k v :
  foldM pattern_entry es acc = Ok p ->
  In (k, v) es -> NoDup (map fst es) ->
  exists x, get_prop v "regex" = Ok x /\ obj_get p k = Some x.
Proof.
  pure_js. intros H Hin Hnd.
  destruct (@in_split_keys _ _ _ Hin Hnd) as [l1 [l2 [-> [H1 H2]]]].
  rewrite foldM_app in H.
  destruct (foldM pattern_entry l1 acc) as [p1|?]; simpl in H; [|discriminate].
  unfold pattern_entry at 1 in H. simpl in H.
  destruct (get_prop v "regex") as [x|?]; simpl in H; [|discriminate].
  exists x. split; [reflexivity|].
  rewrite (@patterns_skip _ _ _ _ H H2). apply obj_get_set_same.
Qed.

Lemma get_prop_field (v : jsval) k x : get_prop v k = Ok x -> field v k = x.
Proof. pure_js. destruct v; simpl; intros H; try discriminate; now injection H. Qed.

(** [Object.assign] of the literal of [pick_fields] onto anything: the six
    fields are those of the literal. *)
Lemma assign_picked_six (b : jsval) (c : obj) :
  exists m,
    Object_assign b (JObj (picked c)) = JObj m /\
    forall f, In f service_fields -> prop m f = prop c f.
Proof.
  pure_js. eexists. split; [reflexivity|].
  intros f Hf. unfold assign_into at 1.
  change (own_enumerable (JObj (picked c))) with (picked c).
  unfold picked. simpl fold_left.
  simpl in Hf. destruct Hf as [<-|[<-|[<-|[<-|[<-|[<-|[]]]]]]];
    repeat (rewrite prop_set_other by discriminate); apply prop_set_same.
Qed.

Lemma prop_picked (c : obj) f :
  prop (picked c) f = if includes service_fields f then prop c f else JUndefined.
Proof.
  pure_js. unfold picked, includes, service_fields.
  unfold prop at 1. cbn [map obj_get existsb].
  rewrite !(String.eqb_sym f).
  destruct (String.eqb "regex" f) eqn:E1;
    [apply String.eqb_eq in E1; subst f; reflexivity|].
  destruct (String.eqb "embedUrl" f) eqn:E2;
    [apply String.eqb_eq in E2; subst f; reflexivity|].
  destruct (String.eqb "html" f) eqn:E3;
    [apply String.eqb_eq in E3; subst f; reflexivity|].
  destruct (String.eqb "height" f) eqn:E4;
    [apply String.eqb_eq in E4; subst f; reflexivity|].
  destruct (String.eqb "width" f) eqn:E5;
    [apply String.eqb_eq in E5; subst f; reflexivity|].
  destruct (String.eqb "id" f) eqn:E6;
    [apply String.eqb_eq in E6; subst f; reflexivity|].
  reflexivity.
Qed.

Lemma In_enabledServices (given : obj) k :
  In k (enabledServices (own_entries given))
  <-> In k (own_keys given) /\ prop given k = JBool true.
Proof.
  pure_js. unfold enabledServices. rewrite in_map_iff. split.
  - intros [[k' v] [E H]]. simpl in E. subst k'. apply filter_In in H as [H T].
    simpl in T. pose proof (own_entries_value _ _ _ H) as Ev. subst v. split.
    + rewrite <- own_entries_keys. apply in_map_iff. now exists (k, prop given k).
    + destruct (prop given k) as [| |[|]| | | | | |]; try discriminate. reflexivity.
  - intros [H T]. exists (k, prop given k). split; [reflexivity|].
    apply filter_In. split; [now apply In_own_entries|]. simpl. now rewrite T.
Qed.

Lemma In_builtins (catalogue given : obj) k v :
  In (k, v) (builtins catalogue given)
  <-> In k (own_keys catalogue) /\ v = prop catalogue k /\
      (enabledServices (own_entries given) = [] \/
       In k (enabledServices (own_entries given))).
Proof.
  pure_js. unfold builtins, surviving.
  assert (B : In (k, v) (own_entries catalogue)
              <-> In k (own_keys catalogue) /\ v = prop catalogue k).
  { split.
    - intros H. split; [|now apply own_entries_value].
      rewrite <- own_entries_keys. apply in_map_iff. now exists (k, v).
    - intros [H ->]. now apply In_own_entries. }
  destruct (enabledServices (own_entries given)) as [|e l] eqn:E.
  - rewrite B. intuition.
  - rewrite filter_In, B. simpl fst. rewrite includes_In.
    split; [intuition | intros [H1 [H2 [H3|H3]]]; [discriminate | intuition]].
Qed.

Section Resolved.

Variables catalogue cfg given services patterns : obj.
Hypothesis catalogue_object : SERVICES = JObj catalogue.
Hypothesis services_object : prop cfg "services" = JObj given.
Hypothesis resolved : prepare (JObj cfg) = Ok (services, patterns).

Let enabled := enabledServices (own_entries given).

Lemma resolved_inv :
  exists custom,
    userServices (own_entries given) = Ok custom /\
    services = fold_left merge_entry (builtins catalogue given ++ custom)%list [] /\
    foldM pattern_entry (builtins catalogue given ++ custom)%list [] = Ok patterns.
Proof using catalogue_object services_object resolved.
  clear first_element caption_in.
  pose proof resolved as H. unfold prepare in H.
  rewrite (resolved_entries_eq cfg catalogue_object services_object) in H.
  destruct (userServices (own_entries given)) as [custom|e]; simpl in H; [|discriminate].
  destruct (foldM pattern_entry _ _) as [p|e] eqn:P; simpl in H; [|discriminate].
  injection H as <- <-. now exists custom.
Qed.

(** A key of the user's services: a plain object that passes the check. *)
Lemma custom_key (custom : list (string * jsval)) k :
  userServices (own_entries given) = Ok custom ->
  In k (map fst custom) ->
  exists c, prop given k = JObj c /\ valid_service c = true /\
            In (k, JObj (picked c)) custom.
Proof using Type.
  clear catalogue_object services_object resolved.
  intros U Hk. apply in_map_iff in Hk as [[k' x] [E Hin]]. simpl in E. subst k'.
  pose proof Hin as Hin'.
  apply (userServices_In _ k x U) in Hin as [v [Hv [_ [[iv [C T]] P]]]].
  destruct (@checkServiceConfig_truthy _ _ C T) as [c [-> V]].
  rewrite pick_fields_obj in P. injection P as <-.
  exists c. rewrite <- (own_entries_value _ _ _ Hv). auto.
Qed.

(** What the registry holds under a key: the merge for a key of the user's
    services, the catalogue's value for another key that stays, nothing
    otherwise. *)
Lemma resolved_value k :
  (exists c m,
     prop given k = JObj c /\ valid_service c = true /\
     obj_get services k = Some (JObj m) /\
     (forall f, In f service_fields -> prop m f = prop c f) /\
     (~ In k (map fst (builtins catalogue given)) -> m = picked c) /\
     obj_get patterns k = Some (prop c "regex")) \/
  (In (k, prop catalogue k) (builtins catalogue given) /\
   obj_get services k = Some (prop catalogue k) /\
   obj_get patterns k = Some (field (prop catalogue k) "regex") /\
   ~ (jstype_eqb (typeof (prop given k)) TObject = true /\
      exists c, prop given k = JObj c /\ valid_service c = true /\
                In k (own_keys given))) \/
  (obj_get services k = None /\ obj_get patterns k = None /\
   ~ In k (map fst (builtins catalogue given)) /\
   ~ (jstype_eqb (typeof (prop given k)) TObject = true /\
      exists c, prop given k = JObj c /\ valid_service c = true /\
                In k (own_keys given))).
Proof using catalogue_object services_object resolved.
  clear first_element caption_in.
  destruct resolved_inv as [custom [U [-> P]]].
  pose proof (builtins_NoDup catalogue given) as NB.
  pose proof (@userServices_NoDup _ _ U (given_NoDup given)) as NC.
  rewrite foldM_app in P.
  destruct (foldM pattern_entry (builtins catalogue given) []) as [p1|?] eqn:P1;
    simpl in P; [|discriminate].
  rewrite fold_left_app.
  destruct (in_dec string_dec k (map fst custom)) as [Hc|Hc].
  - left. destruct (@custom_key _ k U Hc) as [c [Hg [V Hin]]].
    destruct (@patterns_get _ _ _ _ _ P Hin NC) as [x [Hx Hp]].
    simpl in Hx. injection Hx as <-.
    rewrite (@fold_merge_get _ _ _ _ Hin NC).
    destruct (obj_get (fold_left merge_entry (builtins catalogue given) []) k)
      as [b|] eqn:B.
    + destruct (assign_picked_six b c) as [m [Hm Hsix]].
      exists c, m. simpl. rewrite Hm. repeat split; auto.
      intros N. rewrite fold_merge_skip in B by assumption. discriminate.
    + exists c, (picked c). simpl. repeat split; auto.
      intros f Hf. rewrite prop_picked.
      now rewrite (proj2 (includes_In service_fields f) Hf).
  - rewrite fold_merge_skip by assumption. rewrite (@patterns_skip _ _ _ _ P Hc).
    assert (NV : ~ (jstype_eqb (typeof (prop given k)) TObject = true /\
                    exists c, prop given k = JObj c /\ valid_service c = true /\
                              In k (own_keys given))).
    { intros [T [c [Hg [V Hk]]]]. apply Hc. apply in_map_iff.
      exists (k, JObj (picked c)). split; [reflexivity|].
      apply (userServices_In _ k (JObj (picked c)) U). exists (JObj c).
      split; [|split; [|split]].
      - rewrite <- Hg. now apply In_own_entries.
      - reflexivity.
      - destruct (checkServiceConfig_object c) as [iv [C Tv]].
        exists iv. split; [exact C | congruence].
      - reflexivity. }
    destruct (in_dec string_dec k (map fst (builtins catalogue given))) as [Hb|Hb].
    + right. left. apply in_map_iff in Hb as [[k' v] [E Hin]]. simpl in E. subst k'.
      pose proof (proj1 (In_builtins catalogue given k v) Hin) as [_ [Ev _]].
      subst v. split; [exact Hin|].
      rewrite (@fold_merge_get _ [] _ _ Hin NB). simpl. split; [reflexivity|].
      destruct (@patterns_get _ _ _ _ _ P1 Hin NB) as [x [Hx Hp]].
      rewrite Hp, (@get_prop_field _ _ _ Hx). auto.
    + right. right. rewrite fold_merge_skip by assumption.
      rewrite (@patterns_skip _ _ _ _ P1 Hb). auto.
Qed.


Lemma no_flag_no_enabled :
  (forall k, In k (own_keys given) -> prop given k <> JBool true) -> enabled = [].
Proof using Type.
  clear catalogue_object services_object resolved.
  intros H. subst enabled.
  destruct (enabledServices (own_entries given)) as [|k l] eqn:E; [reflexivity|].
  assert (In k (enabledServices (own_entries given))) as Hk by (rewrite E; now left).
  apply In_enabledServices in Hk as [Hk T]. now elim (H k Hk).
Qed.

(** X14: only [true] switches a service on, and [false] switches nothing
    off.  When no key of the configuration holds [true], a service of the
    catalogue whose key holds no object in the configuration ([false], a
    number, nothing at all) is in the registry as the catalogue has it. *)
Theorem false_flag_disables_nothing k :
  (forall k', In k' (own_keys given) -> prop given k' <> JBool true) ->
  In k (own_keys catalogue) ->
  jstype_eqb (typeof (prop given k)) TObject = false ->
  obj_get services k = Some (prop catalogue k).
Proof using catalogue_object services_object resolved.
  clear first_element caption_in.
  intros Hflags Hk Ht.
  assert (Hb : In (k, prop catalogue k) (builtins catalogue given)).
  { apply In_builtins. repeat split; [assumption|]. left. now apply no_flag_no_enabled. }
  destruct (resolved_value k)
    as [[c [m [Hg _]]]|[[_ [Hs _]]|[_ [_ [N _]]]]].
  - rewrite Hg in Ht. discriminate.
  - exact Hs.
  - elim N. apply in_map_iff. now exists (k, prop catalogue k).
Qed.

(** X15: one [true] in the configuration narrows the catalogue to the keys
    that hold [true].  A service of the catalogue whose key holds [true] is
    in the registry as the catalogue has it; a key that holds neither
    [true] nor an object is not in the registry, also when the key that
    holds [true] names no service of the catalogue. *)
Theorem true_flag_narrows flagged k :
  In flagged (own_keys given) ->
  prop given flagged = JBool true ->
  jstype_eqb (typeof (prop given k)) TObject = false ->
  (In k (own_keys catalogue) -> In k (own_keys given) -> prop given k = JBool true ->
   obj_get services k = Some (prop catalogue k)) /\
  (prop given k <> JBool true -> obj_get services k = None).
Proof using catalogue_object services_object resolved.
  clear first_element caption_in.
  intros Hf Tf Ht.
  assert (He : In flagged enabled) by (apply In_enabledServices; auto).
  split.
  - intros Hk Hg Tk.
    assert (Hb : In (k, prop catalogue k) (builtins catalogue given)).
    { apply In_builtins. repeat split; [assumption|]. right.
      apply In_enabledServices. auto. }
    destruct (resolved_value k)
      as [[c [m [Hgc _]]]|[[_ [Hs _]]|[_ [_ [N _]]]]].
    + rewrite Hgc in Ht. discriminate.
    + exact Hs.
    + elim N. apply in_map_iff. now exists (k, prop catalogue k).
  - intros Tk.
    destruct (resolved_value k)
      as [[c [m [Hgc _]]]|[[Hb _]|[Hs _]]].
    + rewrite Hgc in Ht. discriminate.
    + apply In_builtins in Hb as [_ [_ [E|E]]].
      * fold enabled in E. rewrite E in He. destruct He.
      * apply In_enabledServices in E as [_ E]. contradiction.
    + exact Hs.
Qed.

(** X16: when neither the catalogue nor the user's services have a key
    named [__proto__], a valid definition under a key that the catalogue
    does not have is stored cut down to the six fields: the registry has
    each of them as the definition has it ([undefined] where it has none),
    and no other property of the definition. *)
Theorem new_key_keeps_six_fields k (c : obj) :
  ~ In "__proto__" (own_keys catalogue) ->
  ~ In "__proto__" (own_keys given) ->
  ~ In k (own_keys catalogue) ->
  In k (own_keys given) ->
  prop given k = JObj c ->
  valid_service c = true ->
  prop services k = JObj (picked c) /\
  (forall f, In f service_fields -> field (prop services k) f = prop c f) /\
  (forall f, ~ In f service_fields -> field (prop services k) f = JUndefined).
Proof using catalogue_object services_object resolved.
  clear first_element caption_in.
  intros _ _ Hn Hk Hg V.
  assert (Nb : ~ In k (map fst (builtins catalogue given))).
  { rewrite in_map_iff. intros [[k' v] [E H]]. simpl in E. subst k'.
    apply In_builtins in H. tauto. }
  assert (E : prop services k = JObj (picked c)).
  { destruct (resolved_value k)
      as [[c' [m [Hg' [_ [Hs [_ [Hm _]]]]]]]|[[_ [_ [_ N]]]|[_ [_ [_ N]]]]].
    - rewrite Hg in Hg'. injection Hg' as <-. unfold prop. rewrite Hs.
      now rewrite (Hm Nb).
    - elim N. split; [now rewrite Hg|]. now exists c.
    - elim N. split; [now rewrite Hg|]. now exists c. }
  rewrite E. split; [reflexivity|]. cbn [field]. split.
  - intros f Hf. rewrite prop_picked.
    now rewrite (proj2 (includes_In service_fields f) Hf).
  - intros f Hf. rewrite prop_picked.
    destruct (includes service_fields f) eqn:I; [|reflexivity].
    apply includes_In in I. contradiction.
Qed.

(** X17: the patterns that the tool hands to the editor are those of the
    registry: the two have the same keys, and under each key the pattern
    is the regex of the service that the registry holds there. *)
Theorem patterns_follow_registry k :
  prop patterns k = field (prop services k) "regex" /\
  (obj_get patterns k = None <-> obj_get services k = None).
Proof using catalogue_object services_object resolved.
  clear first_element caption_in.
  unfold prop.
  destruct (resolved_value k)
    as [[c [m [_ [_ [Hs [Hsix [_ Hp]]]]]]]|[[_ [Hs [Hp _]]]|[Hs [Hp _]]]];
    rewrite Hs, Hp.
  - split; [|split; discriminate]. cbn [field]. symmetry. apply Hsix. now left.
  - split; [reflexivity | split; discriminate].
  - split; [reflexivity | tauto].
Qed.

Lemma valid_is_usable (c m : obj) :
  valid_service c = true ->
  (forall f, In f service_fields -> prop m f = prop c f) ->
  usable_service (JObj m).
Proof using Type.
  clear catalogue_object services_object resolved.
  intros V Hsix. unfold valid_service in V.
  repeat (apply andb_prop in V as [V ?]).
  assert (exists r, prop c "regex" = JRegExp r) as [r Hr]
    by (destruct (prop c "regex"); try discriminate; now eexists).
  assert (exists t, prop c "embedUrl" = JStr t) as [t Ht]
    by (destruct (prop c "embedUrl"); try discriminate; now eexists).
  exists m, r, t. split; [reflexivity|].
  rewrite !Hsix by (simpl; auto 10). repeat split; try assumption.
  destruct (prop c "id"); try discriminate; [now left | right; now eexists].
Qed.

Lemma resolved_usable :
  (forall k, In k (own_keys catalogue) -> usable_service (prop catalogue k)) ->
  forall k, In k (own_keys services) -> usable_service (prop services k).
Proof using catalogue_object services_object resolved.
  clear first_element caption_in.
  intros Hcat k Hk. unfold prop at 1.
  destruct (resolved_value k)
    as [[c [m [_ [V [Hs [Hsix _]]]]]]|[[Hb [Hs _]]|[Hs _]]]; rewrite Hs.
  - exact (@valid_is_usable c m V Hsix).
  - apply Hcat. apply In_builtins in Hb. tauto.
  - apply In_own_keys in Hk. apply obj_get_None in Hs. contradiction.
Qed.

(** X18: resolution keeps the registry usable.  When every service of the
    catalogue is an object with a RegExp, a template that is a string and an
    id that is absent or a function, so is every service of the registry,
    whatever the user's services are. *)
Theorem resolution_keeps_usable :
  (forall k, In k (own_keys catalogue) -> usable_service (prop catalogue k)) ->
  forall k, In k (own_keys services) -> usable_service (prop services k).
Proof using catalogue_object services_object resolved.
  clear first_element caption_in.
  exact resolved_usable.
Qed.

(** X19: with such a catalogue, and with no key named [hasOwnProperty] or
    [__proto__] in the catalogue or in the user's services, matching any
    input on the resolved registry does not throw. *)
Theorem resolved_registry_is_safe (str : string) :
  (forall k, In k (own_keys catalogue) -> usable_service (prop catalogue k)) ->
  ~ In "hasOwnProperty" (own_keys catalogue) ->
  ~ In "hasOwnProperty" (own_keys given) ->
  ~ In "__proto__" (own_keys catalogue) ->
  ~ In "__proto__" (own_keys given) ->
  exists v, matchService (Some services) str = Ok v.
Proof using catalogue_object services_object resolved.
  clear first_element caption_in.
  intros Hcat Nc Ng _ _. apply usable_registry_matches; [|now apply resolved_usable].
  destruct (resolved_value "hasOwnProperty")
    as [[c [m [Hg _]]]|[[Hb _]|[Hs _]]].
  - elim Ng. apply In_own_keys.
    destruct (in_dec string_dec "hasOwnProperty" (map fst given)) as [H|H]; [exact H|].
    apply obj_get_None in H. unfold prop in Hg. rewrite H in Hg. discriminate.
  - apply In_builtins in Hb. tauto.
  - exact Hs.
Qed.

End Resolved.

(** *** The order in which the matcher visits the registry *)

(** The order of two keys that are array indices. *)
Definition index_lt (a b : string) : Prop :=
  match array_index a, array_index b with
  | Some m, Some n => (m < n)%N
  | _, _ => False
  end.

Lemma pow10_pos (n : N) : (0 < 10 ^ n)%N.
Proof. pure_js. pose proof (N.pow_nonzero 10 n). lia. Qed.

Lemma is_digit_code (c : ascii) :
  is_digit c = true -> (48 <= N_of_ascii c <= 57)%N.
Proof.
  pure_js. unfold is_digit, nat_of_ascii. intros H. apply andb_prop in H as [H1 H2].
  apply Nat.leb_le in H1, H2. lia.
Qed.

Lemma digit_inj (c c' : ascii) :
  is_digit c = true -> is_digit c' = true ->
  (N_of_ascii c - 48 = N_of_ascii c' - 48)%N -> c = c'.
Proof.
  pure_js. intros H H' E. apply is_digit_code in H, H'.
  rewrite <- (ascii_N_embedding c), <- (ascii_N_embedding c'). f_equal. lia.
Qed.

Lemma digits_value_bounds (s : string) (acc n : N) :
  digits_value acc s = Some n ->
  (acc * 10 ^ N.of_nat (String.length s) <= n
   < (acc + 1) * 10 ^ N.of_nat (String.length s))%N.
Proof.
  pure_js. revert acc. induction s as [|c r IH]; intros acc H.
  - injection H as <-. simpl. lia.
  - cbn [digits_value] in H. destruct (is_digit c) eqn:D; [|discriminate].
    apply IH in H. apply is_digit_code in D.
    cbn [String.length]. rewrite Nat2N.inj_succ, N.pow_succ_r'.
    set (P := (10 ^ N.of_nat (String.length r))%N) in *.
    set (d := (N_of_ascii c - 48)%N) in *.
    assert (d <= 9)%N by (subst d; lia). clearbody d P. nia.
Qed.

Lemma digits_value_inj (s t : string) (acc acc' n : N) :
  String.length s = String.length t ->
  digits_value acc s = Some n -> digits_value acc' t = Some n ->
  acc = acc' /\ s = t.
Proof.
  pure_js. revert t acc acc'. induction s as [|c r IH]; intros [|c' r'] acc acc' L H H';
    try discriminate L.
  - injection H as <-. injection H' as <-. auto.
  - cbn [digits_value] in H, H'. destruct (is_digit c) eqn:D; [|discriminate].
    destruct (is_digit c') eqn:D'; [|discriminate].
    injection L as L. destruct (IH _ _ _ L H H') as [E ->].
    pose proof (is_digit_code _ D) as B. pose proof (is_digit_code _ D') as B'.
    assert (acc = acc') by lia. subst acc'. split; [reflexivity|]. f_equal.
    apply digit_inj; [assumption | assumption | lia].
Qed.

(** A key stands for at most one array index, and an array index is written
    in one way only. *)
Lemma array_index_inj (a b : string) (n : N) :
  array_index a = Some n -> array_index b = Some n -> a = b.
Proof.
  pure_js.
  assert (Z : forall s m, array_index s = Some m ->
            s = "0" /\ m = 0%N \/
            exists c r, s = String c r /\ digits_value 0 s = Some m /\
                        (10 ^ N.of_nat (String.length r) <= m
                         < 10 * 10 ^ N.of_nat (String.length r))%N).
  { intros s m H. destruct s as [|c r]; [discriminate|]. unfold array_index in H.
    destruct (Ascii.eqb c "0") eqn:E.
    - apply Ascii.eqb_eq in E. subst c.
      destruct (String.eqb r "") eqn:R; [|discriminate].
      apply String.eqb_eq in R. subst r. injection H as <-. now left.
    - right. destruct (digits_value 0 (String c r)) as [v|] eqn:V; [|discriminate].
      destruct (v <? 4294967295)%N; [|discriminate]. injection H as <-.
      exists c, r. split; [reflexivity|]. split; [reflexivity|].
      pose proof V as V'. cbn [digits_value] in V'.
      destruct (is_digit c) eqn:D; [|discriminate].
      apply digits_value_bounds in V'. apply is_digit_code in D.
      assert (N_of_ascii c <> 48%N).
      { intros C. apply Ascii.eqb_neq in E. apply E.
        rewrite <- (ascii_N_embedding c), C. reflexivity. }
      set (P := (10 ^ N.of_nat (String.length r))%N) in *.
      assert (0 < P)%N by apply pow10_pos. nia. }
  intros Ha Hb. apply Z in Ha, Hb.
  destruct Ha as [[-> ->]|[c [r [-> [Va Ba]]]]], Hb as [[-> E]|[c' [r' [-> [Vb Bb]]]]].
  - reflexivity.
  - exfalso. assert (0 < 10 ^ N.of_nat (String.length r'))%N
      by apply pow10_pos. lia.
  - exfalso. subst n. assert (0 < 10 ^ N.of_nat (String.length r))%N
      by apply pow10_pos. lia.
  - assert (L : String.length r = String.length r').
    { destruct (Nat.lt_trichotomy (String.length r) (String.length r')) as [L|[L|L]];
        [exfalso | exact L | exfalso].
      - assert (10 * 10 ^ N.of_nat (String.length r)
                <= 10 ^ N.of_nat (String.length r'))%N.
        { rewrite <- N.pow_succ_r'. apply N.pow_le_mono_r; lia. }
        lia.
      - assert (10 * 10 ^ N.of_nat (String.length r')
                <= 10 ^ N.of_nat (String.length r))%N.
        { rewrite <- N.pow_succ_r'. apply N.pow_le_mono_r; lia. }
        lia. }
    apply (@digits_value_inj (String c r) (String c' r') 0%N 0%N n);
      [simpl; now rewrite L | assumption | assumption].
Qed.

Lemma insert_index_sorted n k (l : list (N * string)) :
  StronglySorted (fun x y => (fst x < fst y)%N) l ->
  (forall x, In x l -> fst x <> n) ->
  StronglySorted (fun x y => (fst x < fst y)%N) (insert_index n k l).
Proof.
  pure_js. induction 1 as [|[m k'] l Hl IH Hm]; intros Hn; simpl.
  - constructor; constructor.
  - assert (m <> n) by (apply (Hn (m, k')); now left).
    destruct (n <=? m)%N eqn:E.
    + apply N.leb_le in E. constructor; [now constructor|].
      constructor; [simpl; lia|].
      rewrite Forall_forall in Hm |- *. intros x Hx. specialize (Hm x Hx). simpl in *. lia.
    + apply N.leb_gt in E. constructor.
      * apply IH. intros x Hx. apply Hn. now right.
      * rewrite Forall_forall in Hm |- *. intros x Hx.
        apply In_insert_index in Hx as [->|Hx]; [simpl; lia | now apply Hm].
Qed.

Lemma index_keys_entries (l : list string) n k :
  In (n, k) (index_keys l) -> In k l /\ array_index k = Some n.
Proof.
  pure_js. induction l as [|a l IH]; simpl; [tauto|].
  destruct (array_index a) as [m|] eqn:E.
  - intros H. apply In_insert_index in H as [[= -> ->]|H]; [auto | apply IH in H; tauto].
  - intros H. apply IH in H. tauto.
Qed.

Lemma index_keys_sorted (l : list string) :
  NoDup l -> StronglySorted (fun x y => (fst x < fst y)%N) (index_keys l).
Proof.
  pure_js. induction 1 as [|a l Ha Hl IH]; simpl; [constructor|].
  destruct (array_index a) as [n|] eqn:E; [|assumption].
  apply insert_index_sorted; [assumption|].
  intros [m k] Hx C. simpl in C. subst m.
  apply index_keys_entries in Hx as [Hk Hx].
  apply Ha. now rewrite (array_index_inj _ _ E Hx).
Qed.

Lemma index_keys_ascending (l : list string) :
  NoDup l -> StronglySorted index_lt (map snd (index_keys l)).
Proof.
  pure_js. intros Hl. pose proof (index_keys_sorted Hl) as S.
  assert (E : forall x, In x (index_keys l) -> array_index (snd x) = Some (fst x)).
  { intros [n k] Hx. now apply index_keys_entries in Hx. }
  induction S as [|x r Hr IH Hx]; simpl; constructor.
  - apply IH. intros y Hy. apply E. now right.
  - rewrite Forall_forall in Hx |- *. intros k Hk.
    apply in_map_iff in Hk as [y [<- Hy]]. unfold index_lt.
    rewrite (E x (or_introl eq_refl)), (E y (or_intror Hy)). now apply Hx.
Qed.

Lemma index_lt_irrefl (a : string) : ~ index_lt a a.
Proof. pure_js. unfold index_lt. destruct (array_index a); [apply N.lt_irrefl | tauto]. Qed.

Lemma index_lt_trans (a b c : string) : index_lt a b -> index_lt b c -> index_lt a c.
Proof.
  pure_js. unfold index_lt.
  destruct (array_index a), (array_index b), (array_index c); try tauto.
  apply N.lt_trans.
Qed.

(** Two ascending lists of the same keys are the same list. *)
Lemma ascending_unique (l1 l2 : list string) :
  StronglySorted index_lt l1 -> StronglySorted index_lt l2 ->
  (forall k, In k l1 <-> In k l2) -> l1 = l2.
Proof.
  pure_js. intros S1. revert l2. induction S1 as [|a l1 S1 IH H1]; intros l2 S2 E.
  - destruct l2 as [|b l2]; [reflexivity|]. destruct (proj2 (E b) (or_introl eq_refl)).
  - destruct S2 as [|b l2 S2 H2]; [destruct (proj1 (E a) (or_introl eq_refl))|].
    rewrite Forall_forall in H1, H2.
    assert (a = b).
    { destruct (proj1 (E a) (or_introl eq_refl)) as [->|Ha]; [reflexivity|].
      destruct (proj2 (E b) (or_introl eq_refl)) as [->|Hb]; [reflexivity|].
      exfalso. apply (@index_lt_irrefl a).
      apply index_lt_trans with b; [now apply H1 | now apply H2]. }
    subst b. f_equal. apply IH; [assumption|]. intros k. split; intros Hk.
    + destruct (proj1 (E k) (or_intror Hk)) as [<-|H]; [|exact H].
      exfalso. apply (@index_lt_irrefl a). now apply H1.
    + destruct (proj2 (E k) (or_intror Hk)) as [<-|H]; [|exact H].
      exfalso. apply (@index_lt_irrefl a). now apply H2.
Qed.

(** The order of enumeration of an object that lists each key once: the
    keys that are array indices, ascending, then the other keys as they
    were created. *)
Lemma own_keys_order (o : obj) (indices : list string) :
  NoDup (map fst o) ->
  (forall k, In k indices <-> In k (map fst o) /\ is_index k = true) ->
  StronglySorted index_lt indices ->
  own_keys o = (indices ++ filter (fun k => negb (is_index k)) (map fst o))%list.
Proof.
  pure_js. intros Hnd Hin Hs. unfold own_keys. rewrite (uniq_NoDup Hnd). f_equal.
  apply ascending_unique; [now apply index_keys_ascending | assumption|].
  intros k. rewrite In_index_keys. symmetry. apply Hin.
Qed.

(** Whether the configuration lets a key of the catalogue stay: every key
    stays when no key is switched on. *)
Definition stays (given : obj) (k : string) : bool :=
  match enabledServices (own_entries given) with
  | [] => true
  | _ :: _ => includes (enabledServices (own_entries given)) k
  end.

(** Whether the configuration holds under a key a definition that [prepare]
    takes: a plain object that passes the check. *)
Definition accepted (given : obj) (k : string) : bool :=
  match prop given k with
  | JObj c => valid_service c
  | _ => false
  end.

Lemma map_fst_filter_entries (g : string * jsval -> bool) (o : obj) :
  map fst (filter g (own_entries o))
  = filter (fun k => g (k, prop o k)) (own_keys o).
Proof.
  pure_js. unfold own_entries. induction (own_keys o) as [|k l IH]; simpl; [reflexivity|].
  destruct (g (k, prop o k)); simpl; now rewrite IH.
Qed.

Lemma includes_filter (f : string -> bool) (l : list string) k :
  includes (filter f l) k = f k && includes l k.
Proof.
  pure_js. unfold includes. induction l as [|a l IH]; simpl; [now rewrite andb_false_r|].
  destruct (f a) eqn:F; simpl; rewrite IH.
  - destruct (String.eqb k a) eqn:E; simpl.
    + apply String.eqb_eq in E. subst a. now rewrite F.
    + reflexivity.
  - destruct (String.eqb k a) eqn:E; simpl; [|reflexivity].
    apply String.eqb_eq in E. subst a. now rewrite F.
Qed.

Lemma builtins_keys (catalogue given : obj) :
  map fst (builtins catalogue given) = filter (stays given) (own_keys catalogue).
Proof.
  pure_js. unfold builtins, surviving, stays.
  destruct (enabledServices (own_entries given)) as [|e l].
  - rewrite own_entries_keys. symmetry. now apply filter_all.
  - now rewrite map_fst_filter_entries.
Qed.

Lemma custom_keys (given : obj) (custom : list (string * jsval)) :
  userServices (own_entries given) = Ok custom ->
  map fst custom = filter (accepted given) (own_keys given).
Proof.
  clear first_element caption_in SERVICES.
  unfold userServices. intros H.
  destruct (filterM _ _) as [checked|e] eqn:F; simpl in H; [|discriminate].
  apply filterM_filter in F. rewrite (@mapM_keys _ _ _ _ pick_fields_key H).
  subst checked.
  rewrite (@filter_twice _ _ _
             (fun e => jstype_eqb (typeof (snd e)) TObject
                       && kept (fun e => v <- checkServiceConfig (snd e);; Ok (truthy v)) e))
    by reflexivity.
  rewrite map_fst_filter_entries. apply filter_ext. intros k.
  unfold accepted, kept. cbn [snd].
  destruct (prop given k) as [| | | | | | | |c]; try reflexivity.
  destruct (checkServiceConfig_object c) as [iv [-> <-]]. reflexivity.
Qed.

(** C3 (as amended): the matcher visits the keys of the registry in their
    order of enumeration and returns at the first key whose pattern tests
    positive on the candidate URL, whatever the keys after it hold.  The
    order of enumeration is not the order of insertion: the keys that are
    array indices come first, ascending, and the other keys follow as they
    were inserted.  That holds for a registry without a property named
    [hasOwnProperty] of its own, which the loop calls.  The order of
    insertion is the one that [prepare] makes: the keys of the catalogue
    that stay, in the order of the catalogue, then the new keys of the
    user's services, in the order of the configuration (neither having a
    key named [__proto__]). *)
Theorem first_match_wins (o : obj) (str : string) (indices before after : list string)
    (key : string) (catalogue cfg given services patterns : obj) :
  (candidate str <> "" ->
   obj_get o "hasOwnProperty" = None ->
   NoDup (map fst o) ->
   (forall k, In k indices <-> In k (map fst o) /\ is_index k = true) ->
   StronglySorted index_lt indices ->
   (indices ++ filter (fun k => negb (is_index k)) (map fst o))%list
   = (before ++ key :: after)%list ->
   (forall k, In k before -> pattern_test o k (candidate str) = Ok false) ->
   pattern_test o key (candidate str) = Ok true ->
   matchService (Some o) str = Ok (composePasteEventMock key (candidate str))) /\
  (SERVICES = JObj catalogue ->
   prop cfg "services" = JObj given ->
   ~ In "__proto__" (own_keys catalogue) ->
   ~ In "__proto__" (own_keys given) ->
   prepare (JObj cfg) = Ok (services, patterns) ->
   NoDup (map fst services) /\
   map fst services
   = (filter (stays given) (own_keys catalogue)
      ++ filter (fun k => accepted given k
                          && negb (stays given k && includes (own_keys catalogue) k))
           (own_keys given))%list).
Proof.
  clear first_element caption_in. split.
  - intros Hne Hown Hnd Hin Hs Hkeys Hbefore Hkey. unfold matchService.
    destruct (String.eqb (candidate str) "") eqn:E;
      [apply String.eqb_eq in E; contradiction|].
    rewrite (own_keys_order o Hnd Hin Hs), Hkeys.
    now apply first_match_stops.
  - intros Hcat Hcfg _ _ Hp.
    destruct (@registry_order catalogue cfg given Hcat Hcfg services patterns Hp)
      as [custom [U [K _]]].
    assert (E : map fst services
                = (filter (stays given) (own_keys catalogue)
                   ++ filter (fun k => accepted given k
                                       && negb (stays given k
                                                && includes (own_keys catalogue) k))
                        (own_keys given))%list).
    { rewrite K, builtins_keys, (custom_keys _ U). f_equal.
      apply filter_twice. intros k. now rewrite includes_filter. }
    split; [|exact E].
    rewrite E. apply NoDup_app.
    + apply NoDup_filter, NoDup_own_keys.
    + apply NoDup_filter, NoDup_own_keys.
    + intros k H1 H2. apply filter_In in H1 as [H1 S1]. apply filter_In in H2 as [_ H2].
      apply andb_prop in H2 as [_ H2]. apply negb_true_iff in H2.
      rewrite S1, (proj2 (includes_In _ _) H1) in H2. discriminate.
Qed.

(** *** Configurations that are missing or null *)

Lemma prepare_empty_services (cfg : obj) :
  prop cfg "services" = JUndefined \/ prop cfg "services" = JObj [] ->
  prepare (JObj cfg) = prepare (JObj [("services", JObj [])]).
Proof.
  clear first_element caption_in.
  intros H. unfold prepare, resolved_entries. cbn [is_undefined get_prop field bind].
  destruct H as [-> | ->]; reflexivity.
Qed.

(** X20: a configuration that is missing, or has no services, leaves the
    catalogue as it is: [prepare] gives the same registry for [undefined],
    for an object without services and for empty services, and this
    registry has every service of the catalogue, unchanged, and nothing
    else. *)
Theorem no_configuration_gives_catalogue (catalogue services patterns : obj) :
  SERVICES = JObj catalogue ->
  prepare JUndefined = Ok (services, patterns) ->
  prepare (JObj []) = prepare JUndefined /\
  (forall cfg, prop cfg "services" = JUndefined ->
               prepare (JObj cfg) = prepare JUndefined) /\
  (forall k, In k (own_keys catalogue) -> obj_get services k = Some (prop catalogue k)) /\
  (forall k, ~ In k (own_keys catalogue) -> obj_get services k = None).
Proof.
  clear first_element caption_in.
  intros Hcat Hp.
  assert (E : prepare JUndefined = prepare (JObj [("services", JObj [])]))
    by reflexivity.
  split; [reflexivity|]. split.
  - intros cfg H. rewrite E. apply prepare_empty_services. now left.
  - rewrite E in Hp.
    assert (V : forall k,
              (In k (own_keys catalogue) -> obj_get services k = Some (prop catalogue k)) /\
              (~ In k (own_keys catalogue) -> obj_get services k = None)).
    { intros k.
      destruct (@resolved_value catalogue [("services", JObj [])] [] services patterns
                  Hcat eq_refl Hp k)
        as [[c [m [Hg _]]]|[[Hb [Hs _]]|[Hs [_ [Nb _]]]]].
      - discriminate Hg.
      - apply In_builtins in Hb as [Hk _]. split; [now intros _ | tauto].
      - split; [|now intros _]. intros Hk. elim Nb. apply in_map_iff.
        exists (k, prop catalogue k). split; [reflexivity|].
        apply In_builtins. repeat split; [assumption | now left]. }
    split; intros k; apply V.
Qed.

Lemma filterM_all_return {A} (f : A -> result bool) (l l' : list A) :
  filterM f l = Ok l' -> forall a, In a l -> exists b, f a = Ok b.
Proof.
  pure_js. revert l'. induction l as [|x l IH]; intros l' H a Ha; [destruct Ha|].
  simpl in H. destruct (f x) as [b|?] eqn:E; simpl in H; [|discriminate].
  destruct (filterM f l) as [r|?]; simpl in H; [|discriminate].
  destruct Ha as [<-|Ha]; [now exists b | exact (IH r eq_refl a Ha)].
Qed.

Lemma filterM_throws {A} (f : A -> result bool) (l : list A) e :
  (forall a e', f a = Throw e' -> e' = TypeError) ->
  filterM f l = Throw e -> e = TypeError.
Proof.
  pure_js. intros Hf. induction l as [|x l IH]; simpl; [discriminate|].
  destruct (f x) as [b|e'] eqn:E; simpl.
  - destruct (filterM f l) as [r|e']; simpl; [discriminate|].
    intros [= <-]. now apply IH.
  - intros [= <-]. exact (Hf x e' E).
Qed.

Lemma checkServiceConfig_throws (v : jsval) e :
  checkServiceConfig v = Throw e -> e = TypeError.
Proof.
  clear first_element caption_in SERVICES.
  destruct v; simpl; intros H; try discriminate; now injection H.
Qed.

(** X21: [null] is not taken for a missing value.  A configuration that is
    [null], services that are [null], and [null] under any key of the
    services each make [prepare] throw a TypeError, whatever else the
    configuration holds. *)
Theorem null_in_configuration_throws :
  prepare JNull = Throw TypeError /\
  (forall cfg, prop cfg "services" = JNull -> prepare (JObj cfg) = Throw TypeError) /\
  (forall catalogue cfg given k,
     SERVICES = JObj catalogue ->
     prop cfg "services" = JObj given ->
     In k (own_keys given) ->
     prop given k = JNull ->
     prepare (JObj cfg) = Throw TypeError).
Proof.
  clear first_element caption_in.
  split; [reflexivity|]. split.
  - intros cfg H. unfold prepare, resolved_entries. cbn [is_undefined get_prop field bind].
    rewrite H. cbn [is_undefined]. unfold Object_entries at 1.
    destruct (nullish SERVICES); reflexivity.
  - intros catalogue cfg given k Hcat Hcfg Hk Hnull.
    unfold prepare. rewrite (resolved_entries_eq cfg Hcat Hcfg).
    assert (U : userServices (own_entries given) = Throw TypeError).
    { unfold userServices.
      destruct (filterM _ _) as [checked|e] eqn:F.
      - exfalso.
        destruct (@filterM_all_return _ _ _ _ F (k, JNull)) as [b Hb]; [|discriminate Hb].
        apply filter_In. split; [|reflexivity].
        rewrite <- Hnull. now apply In_own_entries.
      - simpl. f_equal. refine (@filterM_throws _ _ _ e _ F).
        intros a e'. destruct (checkServiceConfig (snd a)) as [x|e0] eqn:C; simpl.
        + discriminate.
        + intros [= <-]. exact (@checkServiceConfig_throws _ _ C). }
    now rewrite U.
Qed.

(** *** A check that finds nothing, a registry that shadows
        [hasOwnProperty], an update that is a RegExp *)

Lemma no_match_is_falsy services (str : string) :
  services = None \/ str = "" \/
  (exists o, services = Some o /\
     forall k, In k (own_keys o) -> pattern_test o k (candidate str) = Ok false) ->
  exists v, matchService services str = Ok v /\ truthy v = false.
Proof.
  pure_js. intros H. unfold matchService.
  destruct (String.eqb (candidate str) "") eqn:C; [now exists JUndefined|].
  destruct H as [->|[->|[o [-> Hall]]]].
  - now exists JNull.
  - discriminate C.
  - exists JNull. split; [|reflexivity].
    rewrite <- (app_nil_r (own_keys o)). now rewrite first_match_skips.
Qed.

(** X22: a check that finds no service ([prepare] has not run, the input is
    empty, or the loop stops at no key) goes to [checkFailed].  Without an
    input holder, which only [render] builds, that throws a TypeError and
    the tool is left as it was; with one, the holder gets the error class
    and neither the record nor the view changes. *)
Theorem failed_check_marks_holder services (w : Embed) (str : string) :
  services = None \/ str = "" \/
  (exists o, services = Some o /\
     forall k, In k (own_keys o) -> pattern_test o k (candidate str) = Ok false) ->
  (inputHolder w = None -> startChecking services w str = Raises TypeError w) /\
  (forall b, inputHolder w = Some b ->
     startChecking services w str
     = Returns false
         {| _data := _data w; element := element w; inputHolder := Some true |}).
Proof.
  intros H. destruct (no_match_is_falsy H) as [v [Hv T]].
  unfold startChecking, checkFailed, applyErrorStyle. rewrite Hv, T.
  split; [intros -> | intros b ->]; reflexivity.
Qed.

(** X23: a registry with a property named [hasOwnProperty] of its own that
    is not a function cannot be matched against: the loop calls that
    property at the first key, and [matchService] throws a TypeError for
    every input with a candidate URL. *)
Theorem own_hasOwnProperty_throws (o : obj) (v : jsval) (str : string) :
  obj_get o "hasOwnProperty" = Some v ->
  instanceof_Function v = false ->
  str <> "" ->
  matchService (Some o) str = Throw TypeError.
Proof.
  pure_js. intros Hv Hf Hne. unfold matchService.
  destruct (String.eqb (candidate str) "") eqn:C.
  - apply String.eqb_eq in C. elim Hne. now apply candidate_empty.
  - assert (Hk : In "hasOwnProperty" (own_keys o)).
    { apply In_own_keys.
      destruct (in_dec string_dec "hasOwnProperty" (map fst o)) as [H|H]; [exact H|].
      apply obj_get_None in H. congruence. }
    destruct (own_keys o) as [|k keys]; [destruct Hk|].
    cbn [first_match]. unfold pattern_test, hasOwnProperty. rewrite Hv.
    destruct v; try reflexivity. discriminate Hf.
Qed.

(** X24: a RegExp passes the [instanceof Object] test of the setter, and of
    the five fields it has one, its source: an update that is a RegExp puts
    the text of the pattern in the source of the record and keeps the four
    other fields. *)
Theorem regexp_update_takes_source services (w : Embed) (r : RegExp) k :
  In k record_fields ->
  let w' := state_of (set_data services w (JRegExp r)) in
  prop (_data w') "source" = JStr (regexp_source r) /\
  regexp_source r <> "" /\
  (k <> "source" -> prop (_data w') k = prop (_data w) k).
Proof.
  intros Hk w'. subst w'.
  assert (N : regexp_source r <> "").
  { unfold regexp_source. destruct (String.eqb (re_source r) "") eqn:E; [discriminate|].
    now apply String.eqb_neq. }
  split; [|split; [exact N|]].
  - rewrite set_data_field by (reflexivity || (simpl; auto)).
    cbn [field String.eqb Ascii.eqb Bool.eqb]. unfold js_or. cbn [truthy].
    destruct (String.eqb (regexp_source r) "") eqn:E; [|reflexivity].
    apply String.eqb_eq in E. contradiction.
  - intros Hs. rewrite set_data_field by (reflexivity || assumption).
    cbn [field]. destruct (String.eqb k "source") eqn:E;
      [apply String.eqb_eq in E; contradiction | reflexivity].
Qed.

End Embed.

(** ** The readiness of the frame: [embedIsReady]

    [embedIsReady(targetNode)] wires three things that are not in the
    source: a promise, a mutation observer on the container and the
    debounced [resolve] of the [debounce] package, which the observer calls
    with every batch of mutation records.  The source gives the wiring, the
    delay, and the continuation that disconnects the observer.  Time is
    counted in the units of the delay, and a run is given by the times at
    which the batches of mutations come. *)

(** [const PRELOADER_DELAY = 450] *)
Definition PRELOADER_DELAY : nat := 450.

(** The detector between two events: when the timer of the debounced
    function is due, if it is running; whether the observer is connected;
    the times at which [resolve] was called; and the time at which the
    promise resolved. *)
Record detector := {
  timer : option nat;
  observing : bool;
  calls : list nat;
  resolved : option nat
}.

(** Modelled from the spec: [observer.disconnect()] of the browser's
    MutationObserver; the observation is torn down, no further callbacks. *)
Definition disconnect (d : detector) : detector :=
  {| timer := timer d; observing := false; calls := calls d; resolved := resolved d |}.

(** Modelled from the spec: the [resolve] of the browser's Promise and its
    [then]; the future resolves once, and the continuation runs when it
    does.  A later call of [resolve] changes nothing. *)
Definition resolve (continuation : detector -> detector) (now : nat) (d : detector)
  : detector :=
  match resolved d with
  | Some _ =>
      {| timer := timer d; observing := observing d;
         calls := (calls d ++ [now])%list; resolved := resolved d |}
  | None =>
      continuation
        {| timer := timer d; observing := observing d;
           calls := (calls d ++ [now])%list; resolved := Some now |}
  end.

(** Modelled from the spec: [debounce(f, wait)] of the [debounce] package, a
    call of the debounced function; each observed batch resets a fixed
    quiet-period timer. *)
Definition debounced (wait now : nat) (d : detector) : detector :=
  {| timer := Some (now + wait); observing := observing d;
     calls := calls d; resolved := resolved d |}.

(** Modelled from the spec: the timer of [debounce(f, wait)] at the time
    [now]; [f] is called when the full quiet period has passed since the
    last call of the debounced function, at the time the timer is due. *)
Definition timer_due (f : nat -> detector -> detector) (now : nat) (d : detector)
  : detector :=
  match timer d with
  | Some due =>
      if (due <=? now)%nat
      then f due {| timer := None; observing := observing d;
                    calls := calls d; resolved := resolved d |}
      else d
  | None => d
  end.

(** Modelled from the spec: the timer of [debounce(f, wait)] when no call
    comes any more; it runs out. *)
Definition timer_runs_out (f : nat -> detector -> detector) (d : detector) : detector :=
  match timer d with
  | Some due => f due {| timer := None; observing := observing d;
                         calls := calls d; resolved := resolved d |}
  | None => d
  end.

(** Modelled from the spec: the browser's MutationObserver; a batch of
    records goes to the callback while the observer is connected, and
    observation starts at once. *)
Definition deliver (callback : nat -> detector -> detector) (now : nat) (d : detector)
  : detector :=
  if observing d then callback now d else d.

(** [observer.observe(targetNode, {childList: true, subtree: true})] in the
    executor of the promise: the observer is connected, no timer runs and
    the promise is pending. *)
Definition observe : detector :=
  {| timer := None; observing := true; calls := []; resolved := None |}.

(** The wiring of [embedIsReady]: the observer calls
    [debounce(resolve, PRELOADER_DELAY)], and the promise continues with
    [observer.disconnect()]. *)
Definition on_resolve : nat -> detector -> detector := resolve disconnect.
Definition on_batch : nat -> detector -> detector :=
  deliver (debounced PRELOADER_DELAY).

(** A batch at the time [t]: a timer that is due by then has run first. *)
Definition batch (d : detector) (t : nat) : detector :=
  on_batch t (timer_due on_resolve t d).

(** The detector after the batches of a run, and at the end of time. *)
Definition run (batches : list nat) : detector := fold_left batch batches observe.

Definition embedIsReady (batches : list nat) : detector :=
  timer_runs_out on_resolve (run batches).

(** Batches that follow one another within the delay. *)
Fixpoint short_gaps (batches : list nat) : Prop :=
  match batches with
  | x :: (y :: _) as rest => y < x + PRELOADER_DELAY /\ short_gaps rest
  | _ => True
  end.

(** The detector while it waits after a batch at [x], and once the promise
    has resolved at [T]. *)
Definition waiting (x : nat) : detector :=
  {| timer := Some (x + PRELOADER_DELAY); observing := true;
     calls := []; resolved := None |}.

Definition ready (T : nat) : detector :=
  {| timer := None; observing := false; calls := [T]; resolved := Some T |}.

Lemma batch_observe (t : nat) : batch observe t = waiting t.
Proof. reflexivity. Qed.

Lemma batch_waiting (x t : nat) :
  batch (waiting x) t
  = if (x + PRELOADER_DELAY <=? t)%nat then ready (x + PRELOADER_DELAY) else waiting t.
Proof.
  unfold batch, timer_due, waiting. cbn [timer].
  destruct (x + PRELOADER_DELAY <=? t)%nat; reflexivity.
Qed.

Lemma batch_ready (T t : nat) : batch (ready T) t = ready T.
Proof. reflexivity. Qed.

Lemma run_ready (T : nat) (l : list nat) : fold_left batch l (ready T) = ready T.
Proof. induction l as [|t l IH]; simpl; [reflexivity | now rewrite batch_ready]. Qed.

Lemma last_cons (y : nat) (l : list nat) (x : nat) : last (y :: l) x = last l y.
Proof.
  revert y x. induction l as [|z l IH]; intros y x; [reflexivity|].
  change (last (y :: z :: l) x) with (last (z :: l) x). now rewrite !IH.
Qed.

Lemma run_waiting (x : nat) (l : list nat) :
  short_gaps (x :: l) -> fold_left batch l (waiting x) = waiting (last l x).
Proof.
  revert x. induction l as [|y l IH]; intros x H; [reflexivity|].
  destruct H as [Hy Hl]. cbn [fold_left]. rewrite batch_waiting.
  destruct (x + PRELOADER_DELAY <=? y)%nat eqn:E; [apply Nat.leb_le in E; lia|].
  rewrite (IH y Hl). now rewrite last_cons.
Qed.

Lemma run_short (l : list nat) (b : nat) :
  short_gaps (l ++ [b]) -> run (l ++ [b]) = waiting b.
Proof.
  unfold run. destruct l as [|x l]; [reflexivity|]. intros H.
  cbn [app fold_left]. rewrite batch_observe, (@run_waiting x (l ++ [b]) H).
  now rewrite last_last.
Qed.

Lemma short_gaps_firstn (n : nat) (l : list nat) :
  short_gaps l -> short_gaps (firstn n l).
Proof.
  revert n. induction l as [|x l IH]; intros n H.
  - rewrite firstn_nil. exact I.
  - destruct n as [|n]; [exact I|]. cbn [firstn].
    destruct l as [|y l]; [rewrite firstn_nil; exact I|].
    destruct H as [Hy Hl]. specialize (IH n Hl).
    destruct n as [|n]; [exact I|]. cbn [firstn] in *. split; assumption.
Qed.

Lemma run_pending (l : list nat) : short_gaps l -> resolved (run l) = None.
Proof.
  destruct l as [|x l]; [reflexivity|]. intros H.
  unfold run. cbn [fold_left]. rewrite batch_observe, (@run_waiting _ _ H). reflexivity.
Qed.

(** A run that is not empty has a first batch that no batch follows within
    the delay. *)
Lemma first_quiet_batch (x : nat) (l : list nat) :
  StronglySorted le (x :: l) ->
  exists before b after,
    x :: l = (before ++ b :: after)%list /\
    short_gaps (before ++ [b]) /\
    Forall (fun t => b + PRELOADER_DELAY <= t) after.
Proof.
  revert x. induction l as [|y l IH]; intros x S.
  - exists [], x, []. repeat split. constructor.
  - inversion S as [|? ? S' F]; subst.
    destruct (Nat.lt_ge_cases y (x + PRELOADER_DELAY)) as [Hy|Hy].
    + destruct (IH y S') as [before [b [after [E [G A]]]]].
      exists (x :: before), b, after. split; [cbn [app]; now rewrite E|].
      split; [|exact A].
      destruct before as [|z before]; injection E as <- E; split; assumption.
    + exists [], x, (y :: l). split; [reflexivity|]. split; [exact I|].
      inversion S' as [|? ? _ F']; subst. constructor; [assumption|].
      rewrite Forall_forall in F' |- *. intros t Ht. specialize (F' t Ht). lia.
Qed.

Lemma embedIsReady_split (before after : list nat) (b : nat) :
  short_gaps (before ++ [b]) ->
  Forall (fun t => b + PRELOADER_DELAY <= t) after ->
  embedIsReady (before ++ b :: after) = ready (b + PRELOADER_DELAY).
Proof.
  intros G A. unfold embedIsReady.
  replace (before ++ b :: after)%list with ((before ++ [b]) ++ after)%list
    by (rewrite <- app_assoc; reflexivity).
  unfold run. rewrite fold_left_app. fold (run (before ++ [b])).
  rewrite (@run_short _ _ G).
  destruct after as [|a after]; [reflexivity|].
  cbn [fold_left]. rewrite batch_waiting.
  inversion A as [|? ? Ha _]; subst.
  apply Nat.leb_le in Ha. rewrite Ha. now rewrite run_ready.
Qed.

(** C9: for the batches of a run, in the order of their times.  Without a
    batch the promise never resolves.  Otherwise it resolves once, the
    delay of 450 after the first batch that no batch follows within the
    delay: [resolve] is called at that time and at no other; the batches
    before it follow one another within the delay, and after none of them
    has the promise resolved. *)
Theorem quiescence_resolves_once (batches : list nat) :
  StronglySorted le batches ->
  (batches = [] ->
   resolved (embedIsReady batches) = None /\ calls (embedIsReady batches) = []) /\
  (batches <> [] ->
   exists before b after,
     batches = (before ++ b :: after)%list /\
     short_gaps (before ++ [b]) /\
     Forall (fun t => b + PRELOADER_DELAY <= t) after /\
     resolved (embedIsReady batches) = Some (b + PRELOADER_DELAY) /\
     calls (embedIsReady batches) = [b + PRELOADER_DELAY] /\
     observing (embedIsReady batches) = false /\
     forall n, resolved (run (firstn n (before ++ [b]))) = None).
Proof.
  intros S. split.
  - intros ->. split; reflexivity.
  - intros N. destruct batches as [|x l]; [contradiction|].
    destruct (first_quiet_batch S) as [before [b [after [E [G A]]]]].
    exists before, b, after. rewrite E, (@embedIsReady_split _ _ _ G A).
    repeat split; try assumption.
    intros n. apply run_pending. now apply short_gaps_firstn.
Qed.

Lemma quiescence_resolves_once_witness :
  StronglySorted le [0; 100; 300; 750; 800] /\
  resolved (embedIsReady [0; 100; 300; 750; 800]) = Some 750 /\
  calls (embedIsReady [0; 100; 300; 750; 800]) = [750] /\
  resolved (run [0; 100; 300]) = None.
Proof.
  assert (S : StronglySorted le [0; 100; 300; 750; 800])
    by (repeat constructor; lia).
  split; [exact S|].
  destruct (proj2 (quiescence_resolves_once S)) as [before [b [after H]]];
    [discriminate|].
  repeat split; reflexivity.
Defined.

(** ** Instances

    A browser to run the definitions on, and a small catalogue. *)

(** A browser that accepts every string as a CSS value, takes a template
    that opens with a tag as starting with an element, and finds no caption
    node in a frame. *)
Definition sample_CSS_supports (property : string) (value : jsval) : bool :=
  match value with JStr _ => true | _ => false end.
Definition sample_first_element (html : string) : bool := prefix_of "<" html.
Definition sample_caption_in (html : string) : option string := None.

(** What a greedy group of dots takes of a string: all of it up to a line
    terminator. *)
Fixpoint line (s : string) : string :=
  match s with
  | "" => ""
  | String c r => if line_terminator c then "" else String c (line r)
  end.

(** The pattern [/^p/] for a literal [p], and the same pattern followed by
    one group that takes the rest of the line; [source] is the pattern as
    it is written between the slashes. *)
Definition re_prefix (source p : string) : RegExp :=
  {| re_source := source;
     re_flags := [];
     re_exec := fun s => if prefix_of p s then Some [] else None |}.
Definition re_prefix_rest (source p : string) : RegExp :=
  {| re_source := source;
     re_flags := [];
     re_exec := fun s =>
       if prefix_of p s then Some [Some (line (drop (String.length p) s))] else None |}.

(** [([id]) => id]: the first capture group; of a key, the first
    character, as the destructuring of a string gives it. *)
Definition first_id : Callable :=
  {| fn_text := "([id]) => id";
     fn_call := fun a =>
       match a with
       | Groups ids => shift ids
       | Key (String c _) => Some (String c "")
       | Key "" => None
       end |}.

(** A catalogue with one service, X. *)
Definition X_builtin : obj :=
  [("regex", JRegExp (re_prefix_rest "^https:\/\/x\.com\/(.*)" "https://x.com/"));
   ("embedUrl", JStr "https://x.com/embed/<%= remote_id %>");
   ("html", JStr "<iframe></iframe>");
   ("height", JNum 200);
   ("width", JNum 600);
   ("id", JFun first_id)].
Definition sample_SERVICES : jsval := JObj [("X", JObj X_builtin)].

(** A user definition for X that gives the three mandatory fields and a
    height. *)
Definition X_custom : obj :=
  [("regex", JRegExp (re_prefix_rest "^https:\/\/x\.org\/(.*)" "https://x.org/"));
   ("embedUrl", JStr "https://x.org/embed/<%= remote_id %>");
   ("html", JStr "<iframe></iframe>");
   ("height", JStr "300px")].
Definition override_config : jsval := JObj [("services", JObj [("X", JObj X_custom)])].

(** A registry of three services; the patterns of [a] and [b] both match
    every URL that starts with [ht], the pattern of [n] matches none of
    them. *)
Definition service_n : obj :=
  [("regex", JRegExp (re_prefix "^ftp:" "ftp:"));
   ("embedUrl", JStr "https://n/<%= remote_id %>");
   ("html", JStr "<iframe></iframe>")].
Definition service_a : obj :=
  [("regex", JRegExp (re_prefix "^h" "h"));
   ("embedUrl", JStr "https://e/<%= remote_id %>");
   ("html", JStr "<iframe></iframe>")].
Definition service_b : obj :=
  [("regex", JRegExp (re_prefix_rest "^ht(.*)" "ht"));
   ("embedUrl", JStr "https://e/<%= remote_id %>/b");
   ("html", JStr "<iframe></iframe>")].
Definition sample_registry : obj :=
  [("n", JObj service_n); ("a", JObj service_a); ("b", JObj service_b)].

(** A service whose pattern is [/^x/]. *)
Definition service_x : obj :=
  [("regex", JRegExp (re_prefix "^x" "x"));
   ("embedUrl", JStr "https://x/<%= remote_id %>");
   ("html", JStr "<iframe></iframe>")].

(** A tool built from an empty record, rendered, and put into the
    document by the editor. *)
Definition fresh_tool : Embed :=
  state_of (constructor sample_first_element sample_caption_in
              (Some sample_registry) (JObj [])).
Definition shown_tool : Embed :=
  let w := state_of (render sample_first_element sample_caption_in
                       (Some sample_registry) fresh_tool) in
  {| _data := _data w; element := option_map replaced (element w);
     inputHolder := inputHolder w |}.

(** ** The claims on the instances *)

(** C1: the catalogue gives X a height of 200, a width of 600 and an id
    extractor; the user definition gives the mandatory fields and a height
    of 300px.  The resolved X has the height of the user definition, and
    neither the width nor the id extractor of the catalogue: both are
    [undefined]. *)
Theorem override_loses_builtin_fields :
  exists services patterns,
    prepare sample_SERVICES sample_CSS_supports override_config = Ok (services, patterns) /\
    prop X_builtin "height" = JNum 200 /\
    prop X_builtin "width" = JNum 600 /\
    prop X_builtin "id" = JFun first_id /\
    prop X_custom "width" = JUndefined /\
    prop X_custom "id" = JUndefined /\
    field (prop services "X") "height" = JStr "300px" /\
    field (prop services "X") "width" = JUndefined /\
    field (prop services "X") "id" = JUndefined.
Proof.
  do 2 eexists. split; [vm_compute; reflexivity|].
  repeat split.
Qed.

(** C7: a user configuration whose services hold [null] under a key makes
    the resolution throw a TypeError. *)
Theorem null_service_throws :
  typeof JNull = TObject /\
  prepare sample_SERVICES sample_CSS_supports
    (JObj [("services", JObj [("broken", JNull)])]) = Throw TypeError.
Proof. split; reflexivity. Qed.

(** C2, counterexample: the pattern of [a] matches the URL and has no
    group, so the default extractor gives [undefined]; the embed URL then
    ends in the text "undefined", which is not the template with an empty
    string in place of the placeholder. *)
Lemma undefined_id_counterexample :
  re_exec (re_prefix "^h" "h") "http://z" = Some [] /\
  shift [] = None /\
  service_record (Some sample_registry) (composePasteEventMock "a" "http://z")
  = Ok (paste_record "a" "http://z" "https://e/undefined" service_a) /\
  "https://e/undefined" <> join "" ["https://e/"; ""].
Proof. repeat split. discriminate. Qed.

(** C3, counterexample: the catalogue has the service [b] and the user adds
    a service under the key 9.  [prepare] inserts [b] first and 9 after it,
    and the patterns of both match the URL; the matcher returns the key 9,
    which it visits first, and not [b], the first in the order of
    insertion. *)
Lemma index_key_counterexample :
  exists services patterns,
    prepare (JObj [("b", JObj service_b)]) sample_CSS_supports
      (JObj [("services", JObj [("9", JObj service_a)])])
    = Ok (services, patterns) /\
    map fst services = ["b"; "9"] /\
    pattern_test services "b" "http://z" = Ok true /\
    pattern_test services "9" "http://z" = Ok true /\
    matchService (Some services) "http://z" = Ok (composePasteEventMock "9" "http://z") /\
    composePasteEventMock "9" "http://z" <> composePasteEventMock "b" "http://z".
Proof.
  do 2 eexists. split; [vm_compute; reflexivity|].
  repeat split. discriminate.
Qed.

(** C4, counterexample: a width of 0 is given in the update, it is neither
    [undefined] nor the empty string, and the stored width stays 10. *)
Lemma zero_width_counterexample :
  let w := {| _data := example_record; element := None; inputHolder := None |} in
  let data := JObj [("width", JNum 0)] in
  field data "width" = JNum 0 /\
  JNum 0 <> JUndefined /\
  JNum 0 <> JStr "" /\
  prop (_data (state_of (set_data sample_first_element sample_caption_in
                           (Some sample_registry) w data))) "width" = JNum 10 /\
  JNum 10 <> JNum 0.
Proof. repeat split; discriminate. Qed.

(** C6, counterexample: a src value that is itself iframe markup, written
    with single quotes.  Around it the markup gives the value as the
    candidate URL; bare, the value gives its own src, which the pattern of
    the registry matches. *)
Lemma nested_iframe_counterexample :
  let u := "<iframe src='x'></iframe>" in
  let services := Some [("s", JObj service_x)] in
  u <> "" /\ quotable u = true /\
  matchService services (wrap_iframe u) = Ok JNull /\
  matchService services u = Ok (composePasteEventMock "s" "x") /\
  matchService services (wrap_iframe u) <> matchService services u.
Proof. repeat split; discriminate. Qed.


(** ** The theorems at work *)

Lemma partial_update_merge_witness :
  let w := {| _data := example_record; element := None; inputHolder := None |} in
  let data := JObj [("source", JStr "u2"); ("embed", JStr "")] in
  instanceof_Object data = true /\
  In "embed" record_fields /\
  (truthy (field data "embed") = false ->
   prop (_data (state_of (set_data sample_first_element sample_caption_in
                            (Some sample_registry) w data))) "embed"
   = JStr "e1").
Proof.
  intros w data.
  assert (Hobj : instanceof_Object data = true) by reflexivity.
  assert (Hk : In "embed" record_fields) by (simpl; auto).
  split; [exact Hobj|]. split; [exact Hk|].
  exact (proj1 (@partial_update_merge sample_first_element sample_caption_in
                  (Some sample_registry) w data "embed" Hobj Hk)).
Defined.

Lemma falsy_field_keeps_previous_witness :
  let w := {| _data := example_record; element := None; inputHolder := None |} in
  let data := JObj [("width", JNum 0); ("service", JNull)] in
  instanceof_Object data = true /\
  In "width" record_fields /\
  In (field data "width") [JNum 0; JBool false; JNull; JStr ""] /\
  prop (_data (state_of (set_data sample_first_element sample_caption_in
                           (Some sample_registry) w data))) "width"
  = JNum 10.
Proof.
  intros w data.
  assert (Hobj : instanceof_Object data = true) by reflexivity.
  assert (Hk : In "width" record_fields) by (simpl; auto).
  assert (Hv : In (field data "width") [JNum 0; JBool false; JNull; JStr ""])
    by (left; reflexivity).
  repeat (split; [assumption|]).
  exact (proj1 (@falsy_field_keeps_previous sample_first_element sample_caption_in
                  (Some sample_registry) w data "width" Hobj Hk Hv)).
Defined.

Lemma save_round_trip_witness :
  let w := {| _data := merged {| _data := []; element := None; inputHolder := None |} (JObj example_record);
              element := None; inputHolder := None |} in
  reachable sample_first_element sample_caption_in w /\
  exists w',
    constructor sample_first_element sample_caption_in None (JObj (fst (save w)))
    = Returns tt w' /\
    forall k, In k record_fields -> prop (fst (save w')) k = prop (fst (save w)) k.
Proof.
  intros w.
  assert (Hw : reachable sample_first_element sample_caption_in w).
  { apply (@reach_new sample_first_element sample_caption_in None (JObj example_record)).
    reflexivity. }
  split; [exact Hw|].
  exact (@save_round_trip sample_first_element sample_caption_in w None Hw).
Defined.

(** A catalogue with the service [b], and a configuration that adds two
    services under keys that are array indices. *)
Definition indexed_catalogue : obj := [("b", JObj service_b)].
Definition indexed_given : obj := [("10", JObj service_a); ("9", JObj service_n)].
Definition indexed_cfg : obj := [("services", JObj indexed_given)].
Definition indexed_services : obj :=
  match prepare (JObj indexed_catalogue) sample_CSS_supports (JObj indexed_cfg) with
  | Ok (services, _) => services
  | Throw _ => []
  end.
Definition indexed_patterns : obj :=
  match prepare (JObj indexed_catalogue) sample_CSS_supports (JObj indexed_cfg) with
  | Ok (_, patterns) => patterns
  | Throw _ => []
  end.

Lemma first_match_wins_witness :
  prepare (JObj indexed_catalogue) sample_CSS_supports (JObj indexed_cfg)
  = Ok (indexed_services, indexed_patterns) /\
  map fst indexed_services = ["b"; "9"; "10"] /\
  pattern_test indexed_services "9" "http://z" = Ok false /\
  pattern_test indexed_services "10" "http://z" = Ok true /\
  pattern_test indexed_services "b" "http://z" = Ok true /\
  matchService (Some indexed_services) "http://z"
  = Ok (composePasteEventMock "10" "http://z").
Proof.
  destruct (@first_match_wins (JObj indexed_catalogue) sample_CSS_supports
              indexed_services "http://z" ["9"; "10"] ["9"] ["b"] "10"
              indexed_catalogue indexed_cfg indexed_given
              indexed_services indexed_patterns) as [M R].
  assert (K : map fst indexed_services = ["b"; "9"; "10"]) by reflexivity.
  split; [reflexivity|]. split; [|split; [reflexivity|split; [reflexivity|split]]].
  - refine (proj2 (R eq_refl eq_refl _ _ eq_refl)).
    + intros [E|[]]. discriminate E.
    + intros [E|[E|[]]]; discriminate E.
  - reflexivity.
  - apply M.
    + discriminate.
    + reflexivity.
    + rewrite K. repeat constructor; simpl; intuition discriminate.
    + intros k. rewrite K. split.
      * intros [<-|[<-|[]]]; split; simpl; auto.
      * intros [[<-|[<-|[<-|[]]]] H];
          [discriminate H | left; reflexivity | right; left; reflexivity].
    + repeat constructor.
    + reflexivity.
    + intros k [<-|[]]. reflexivity.
    + reflexivity.
Defined.

Lemma iframe_unwraps_witness :
  let u := "https://example.com/embed/42" in
  u <> "" /\ quotable u = true /\ iframe_src u = None /\
  candidate (wrap_iframe u) = u /\
  matchService (Some sample_registry) (wrap_iframe u)
  = matchService (Some sample_registry) u.
Proof.
  intros u.
  assert (Hne : u <> "") by discriminate.
  assert (Hq : quotable u = true) by reflexivity.
  assert (Hbare : iframe_src u = None) by reflexivity.
  repeat (split; [assumption|]).
  exact (@iframe_unwraps (Some sample_registry) u Hne Hq Hbare).
Defined.

Lemma missing_id_substitution_witness :
  prop sample_registry "a" = JObj service_a /\
  re_exec (re_prefix "^h" "h") "http://z" = Some [] /\
  extractor (prop service_a "id") = Ok shift /\
  shift [] = None /\
  service_record (Some sample_registry) (composePasteEventMock "a" "http://z")
  = Ok (paste_record "a" "http://z" (join "undefined" ["https://e/"; ""]) service_a).
Proof.
  assert (Ho : prop sample_registry "a" = JObj service_a) by reflexivity.
  assert (Hr : prop service_a "regex" = JRegExp (re_prefix "^h" "h")) by reflexivity.
  assert (Ht : prop service_a "embedUrl" = JStr (join placeholder ["https://e/"; ""]))
    by reflexivity.
  assert (Hs : Forall (fun seg => occurs placeholder seg = false) ["https://e/"; ""])
    by (repeat constructor).
  assert (Hx : re_exec (re_prefix "^h" "h") "http://z" = Some []) by reflexivity.
  assert (Hid : extractor (prop service_a "id") = Ok shift) by reflexivity.
  assert (Hc : shift [] = None) by reflexivity.
  repeat (split; [assumption|]).
  exact (proj2 (@missing_id_substitution sample_registry service_a "a" "http://z"
                  _ _ _ _ Ho Hr Ht Hs Hx Hid) Hc).
Defined.

(** ** The general lemmas on the instances *)

(** The sample override, through the lemma on valid definitions: the
    resolved X has the height of the user definition and no width. *)
Lemma sample_override_fields (services patterns : obj) :
  prepare sample_SERVICES sample_CSS_supports override_config = Ok (services, patterns) ->
  exists m,
    prop services "X" = JObj m /\
    prop m "height" = JStr "300px" /\
    prop m "width" = JUndefined.
Proof.
  intros Hp.
  destruct (@valid_custom_overrides sample_SERVICES sample_CSS_supports
              [("X", JObj X_builtin)] [("services", JObj [("X", JObj X_custom)])]
              [("X", JObj X_custom)] eq_refl eq_refl services patterns
              "X" X_builtin X_custom (JBool true) Hp)
    as [m [Hm [Hsix _]]].
  - left. reflexivity.
  - left. reflexivity.
  - reflexivity.
  - reflexivity.
  - reflexivity.
  - exists m. split; [exact Hm|]. split.
    + rewrite Hsix by (simpl; auto 10). reflexivity.
    + rewrite Hsix by (simpl; auto 10). reflexivity.
Qed.

(** The sample catalogue and a configuration that switches X on and adds a
    service under a new key: resolution returns. *)
Lemma sample_resolution_returns :
  exists services patterns,
    prepare sample_SERVICES sample_CSS_supports
      (JObj [("services", JObj [("X", JBool true); ("Y", JObj X_custom)])])
    = Ok (services, patterns).
Proof.
  apply (@prepare_returns sample_SERVICES sample_CSS_supports
           [("X", JObj X_builtin)]
           [("services", JObj [("X", JBool true); ("Y", JObj X_custom)])]
           [("X", JBool true); ("Y", JObj X_custom)]
           eq_refl eq_refl).
  - intros k [<-|[]]. reflexivity.
  - intros k [<-|[<-|[]]]; discriminate.
Qed.

(** ** The patterns on examples *)

Example iframe_src_double_quotes :
  iframe_src (wrap_iframe "https://example.com/embed/42")
  = Some "https://example.com/embed/42".
Proof. reflexivity. Qed.

Example iframe_src_single_quotes :
  iframe_src "<p><iframe width='560' src='https://e.com/1' allowfullscreen></iframe></p>"
  = Some "https://e.com/1".
Proof. reflexivity. Qed.

Example iframe_src_bar_as_quote :
  iframe_src "<iframe src=|a|b></iframe>" = Some "a".
Proof. reflexivity. Qed.

Example iframe_src_empty_value : iframe_src (wrap_iframe "") = None.
Proof. reflexivity. Qed.

Example iframe_src_needs_closing_tag :
  iframe_src "<iframe src='https://e.com/1'>" = None.
Proof. reflexivity. Qed.

Example replace_every_placeholder :
  replace_remote_id "https://e/<%= remote_id %>/x/<%= remote_id %>?a" "42"
  = "https://e/42/x/42?a".
Proof. reflexivity. Qed.

Example replace_dollar_patterns :
  replace_remote_id "a<%= remote_id %>b" "[$$|$&|$`|$'|$1]"
  = "a[$|<%= remote_id %>|a|b|$1]b".
Proof. reflexivity. Qed.

Example own_keys_indices_first :
  own_keys [("b", JNull); ("10", JNull); ("a", JNull); ("9", JNull); ("01", JNull)]
  = ["9"; "10"; "b"; "a"; "01"].
Proof. reflexivity. Qed.

(** ** The further properties on instances *)

(** A catalogue of two services, and a configuration that switches X on,
    holds [false] for Z and defines a service of its own under Y, with a
    title besides the six fields. *)
Definition wide_catalogue : obj := [("X", JObj X_builtin); ("Z", JObj service_a)].
Definition wide_SERVICES : jsval := JObj wide_catalogue.

Definition Y_custom : obj :=
  [("title", JStr "mine");
   ("regex", JRegExp (re_prefix_rest "^https:\/\/y\.org\/(.*)" "https://y.org/"));
   ("embedUrl", JStr "https://y.org/embed/<%= remote_id %>");
   ("html", JStr "<iframe></iframe>")].
Definition flags_given : obj :=
  [("X", JBool true); ("Z", JBool false); ("Y", JObj Y_custom)].
Definition flags_cfg : obj := [("services", JObj flags_given)].

Definition flags_services : obj :=
  match prepare wide_SERVICES sample_CSS_supports (JObj flags_cfg) with
  | Ok (services, _) => services
  | Throw _ => []
  end.
Definition flags_patterns : obj :=
  match prepare wide_SERVICES sample_CSS_supports (JObj flags_cfg) with
  | Ok (_, patterns) => patterns
  | Throw _ => []
  end.

Lemma flags_resolved :
  prepare wide_SERVICES sample_CSS_supports (JObj flags_cfg)
  = Ok (flags_services, flags_patterns).
Proof. reflexivity. Defined.

(** A configuration that holds [false] for Z and nothing else. *)
Definition off_given : obj := [("Z", JBool false)].
Definition off_cfg : obj := [("services", JObj off_given)].
Definition off_services : obj :=
  match prepare wide_SERVICES sample_CSS_supports (JObj off_cfg) with
  | Ok (services, _) => services
  | Throw _ => []
  end.
Definition off_patterns : obj :=
  match prepare wide_SERVICES sample_CSS_supports (JObj off_cfg) with
  | Ok (_, patterns) => patterns
  | Throw _ => []
  end.

Lemma off_resolved :
  prepare wide_SERVICES sample_CSS_supports (JObj off_cfg)
  = Ok (off_services, off_patterns).
Proof. reflexivity. Defined.

Definition plain_services : obj :=
  match prepare wide_SERVICES sample_CSS_supports JUndefined with
  | Ok (services, _) => services
  | Throw _ => []
  end.
Definition plain_patterns : obj :=
  match prepare wide_SERVICES sample_CSS_supports JUndefined with
  | Ok (_, patterns) => patterns
  | Throw _ => []
  end.

Lemma wide_catalogue_usable k :
  In k (own_keys wide_catalogue) -> usable_service (prop wide_catalogue k).
Proof.
  intros [<-|[<-|[]]].
  - exists X_builtin, (re_prefix_rest "^https:\/\/x\.com\/(.*)" "https://x.com/"),
      "https://x.com/embed/<%= remote_id %>".
    repeat split. right. now exists first_id.
  - exists service_a, (re_prefix "^h" "h"), "https://e/<%= remote_id %>".
    repeat split. now left.
Defined.

(** A registry with the one service [b]. *)
Definition b_registry : obj := [("b", JObj service_b)].

Lemma match_result_sound_witness :
  matchService (Some sample_registry) "http://z"
  = Ok (composePasteEventMock "a" "http://z") /\
  exists before key after,
    own_keys sample_registry = (before ++ key :: after)%list /\
    (forall k, In k before ->
       pattern_test sample_registry k (candidate "http://z") = Ok false) /\
    pattern_test sample_registry key (candidate "http://z") = Ok true /\
    composePasteEventMock "a" "http://z"
    = composePasteEventMock key (candidate "http://z").
Proof.
  assert (H : matchService (Some sample_registry) "http://z"
              = Ok (composePasteEventMock "a" "http://z")) by reflexivity.
  split; [exact H|].
  destruct (@match_result_sound sample_registry "http://z" _ H)
    as [[E _]|[[E _]|[b [k [a [H1 [H2 [H3 [H4 _]]]]]]]]];
    [discriminate E | discriminate E |].
  exists b, k, a. auto.
Defined.

Lemma any_quote_unwraps_witness :
  quote_class "|"%char = true /\
  quotable_with "|"%char "https://e.com/1" = true /\
  iframe_src (wrap_with "|"%char "https://e.com/1") = Some "https://e.com/1".
Proof.
  assert (Hq : quote_class "|"%char = true) by reflexivity.
  assert (Hne : "https://e.com/1" <> "") by discriminate.
  assert (Hu : quotable_with "|"%char "https://e.com/1" = true) by reflexivity.
  split; [exact Hq|]. split; [exact Hu|].
  exact (proj1 (@any_quote_unwraps "|"%char "https://e.com/1" Hq Hne Hu)).
Defined.

Lemma id_fills_every_placeholder_witness :
  re_exec (re_prefix_rest "^ht(.*)" "ht") "http://z" = Some [Some "tp://z"] /\
  has_char "$" "tp://z" = false /\
  service_record (Some b_registry) (composePasteEventMock "b" "http://z")
  = Ok (JObj [("service", JStr "b"); ("source", JStr "http://z");
              ("embed", JStr (join "tp://z" ["https://e/"; "/b"]));
              ("width", JUndefined); ("height", JUndefined)]).
Proof.
  assert (Hx : re_exec (re_prefix_rest "^ht(.*)" "ht") "http://z" = Some [Some "tp://z"])
    by reflexivity.
  assert (Hd : has_char "$" "tp://z" = false) by reflexivity.
  split; [exact Hx|]. split; [exact Hd|].
  refine (@id_fills_every_placeholder b_registry service_b "b" "http://z" "tp://z"
            (re_prefix_rest "^ht(.*)" "ht") ["https://e/"; "/b"] [Some "tp://z"] shift
            eq_refl eq_refl eq_refl _ Hx eq_refl eq_refl Hd).
  repeat constructor.
Defined.

Lemma paste_without_match_throws_witness :
  re_exec (re_prefix "^h" "h") "mailto:x" = None /\
  performServices sample_first_element sample_caption_in (Some sample_registry)
    shown_tool (composePasteEventMock "a" "mailto:x")
  = Raises TypeError shown_tool.
Proof.
  assert (Hx : re_exec (re_prefix "^h" "h") "mailto:x" = None) by reflexivity.
  split; [exact Hx|].
  refine (@paste_without_match_throws sample_first_element sample_caption_in
            (Some sample_registry) shown_tool "a" "mailto:x" _).
  right. exists sample_registry, service_a, (re_prefix "^h" "h"). auto.
Defined.

Lemma usable_registry_never_throws_witness :
  obj_get wide_catalogue "hasOwnProperty" = None /\
  exists v, matchService (Some wide_catalogue) "http://z" = Ok v.
Proof.
  assert (Hown : obj_get wide_catalogue "hasOwnProperty" = None) by reflexivity.
  split; [exact Hown|].
  exact (@usable_registry_never_throws wide_catalogue "http://z" Hown
           wide_catalogue_usable).
Defined.

Lemma failed_update_keeps_merge_witness :
  let data := JObj [("service", JStr "nope"); ("width", JNum 3)] in
  let w' := state_of (set_data sample_first_element sample_caption_in
                        (Some sample_registry) shown_tool data) in
  set_data sample_first_element sample_caption_in (Some sample_registry)
    shown_tool data = Raises TypeError w' /\
  element w' = element shown_tool /\
  prop (_data w') "width" = JNum 3.
Proof.
  intros data w'.
  assert (H : set_data sample_first_element sample_caption_in (Some sample_registry)
                shown_tool data = Raises TypeError w') by reflexivity.
  assert (Hobj : instanceof_Object data = true) by reflexivity.
  destruct (@failed_update_keeps_merge sample_first_element sample_caption_in
              (Some sample_registry) shown_tool data TypeError w' H Hobj) as [He Hf].
  split; [exact H|]. split; [exact He|].
  exact (Hf "width" (or_intror (or_intror (or_intror (or_introl eq_refl))))).
Defined.

Lemma caption_is_not_kept_witness :
  let data := JObj [("service", JStr "a"); ("caption", JStr "hello")] in
  instanceof_Object data = true /\
  exists w',
    constructor sample_first_element sample_caption_in (Some sample_registry) data
    = Returns tt w' /\
    element w' = None /\
    obj_get (fst (save w')) "caption" = None.
Proof.
  intros data.
  assert (Hobj : instanceof_Object data = true) by reflexivity.
  split; [exact Hobj|].
  exact (@caption_is_not_kept sample_first_element sample_caption_in
           (Some sample_registry) {| _data := []; element := None; inputHolder := None |} data Hobj eq_refl).
Defined.

Lemma save_reads_caption_witness :
  let v := {| shown := InputHolder; caption_node := Some "typed"; parentNode := true |} in
  let w := {| _data := example_record; element := Some v; inputHolder := None |} in
  element w = Some v /\
  prop (fst (save w)) "caption" = JStr "typed" /\
  save (snd (save w)) = save w.
Proof.
  intros v w.
  assert (Hel : element w = Some v) by reflexivity.
  destruct (@save_reads_caption w v Hel) as [Hc [_ [_ Hs]]].
  split; [exact Hel|]. split; [exact Hc | exact Hs].
Defined.

Lemma record_fields_never_falsy_witness :
  let w := {| _data := merged {| _data := []; element := None; inputHolder := None |}
                         (JObj [("service", JStr "a"); ("width", JNum 0)]);
              element := None; inputHolder := None |} in
  reachable sample_first_element sample_caption_in w /\
  In "width" record_fields /\
  (prop (_data w) "width" = JUndefined \/ truthy (prop (_data w) "width") = true).
Proof.
  intros w.
  assert (Hw : reachable sample_first_element sample_caption_in w).
  { apply (@reach_new sample_first_element sample_caption_in None
             (JObj [("service", JStr "a"); ("width", JNum 0)])).
    reflexivity. }
  assert (Hk : In "width" record_fields) by (simpl; auto 10).
  split; [exact Hw|]. split; [exact Hk|].
  exact (@record_fields_never_falsy sample_first_element sample_caption_in w "width" Hw Hk).
Defined.

Lemma render_unknown_service_throws_witness :
  let w := {| _data := [("service", JStr "nope")]; element := None;
              inputHolder := None |} in
  truthy (prop (_data w) "service") = true /\
  nullish (prop sample_registry "nope") = true /\
  exists w',
    render sample_first_element sample_caption_in (Some sample_registry) w
    = Raises TypeError w' /\
    element w' = element w /\
    forall k, In k record_fields -> prop (_data w') k = prop (_data w) k.
Proof.
  intros w.
  assert (T : truthy (prop (_data w) "service") = true) by reflexivity.
  assert (N : nullish (prop sample_registry "nope") = true) by reflexivity.
  split; [exact T|]. split; [exact N|].
  refine (@render_unknown_service_throws sample_first_element sample_caption_in
            (Some sample_registry) w T _).
  right. exists sample_registry. split; [reflexivity | exact N].
Defined.

Lemma paste_keeps_previous_size_witness :
  let w := {| _data := example_record; element := None; inputHolder := None |} in
  truthy (prop service_a "width") = false /\
  prop (_data (state_of (performServices sample_first_element sample_caption_in
                           (Some sample_registry) w
                           (composePasteEventMock "a" "http://z")))) "width"
  = JNum 10.
Proof.
  intros w.
  assert (T : truthy (prop service_a "width") = false) by reflexivity.
  split; [exact T|].
  exact (proj1 (@paste_keeps_previous_size sample_first_element sample_caption_in
                  sample_registry service_a w "a" "http://z"
                  (re_prefix "^h" "h") "https://e/<%= remote_id %>" [] shift "width"
                  eq_refl eq_refl eq_refl eq_refl eq_refl (or_introl eq_refl)) T).
Defined.

Lemma check_shows_frame_witness :
  matchService (Some b_registry) "http://z" = Ok (composePasteEventMock "b" "http://z") /\
  sample_first_element "<iframe></iframe>" = true /\
  exists w',
    startChecking sample_first_element sample_caption_in (Some b_registry)
      shown_tool "http://z" = Returns true w' /\
    prop (_data w') "service" = JStr "b" /\
    prop (_data w') "source" = JStr "http://z" /\
    prop (_data w') "embed" = JStr "https://e/tp://z/b" /\
    element w'
    = Some {| shown := Frame "<iframe></iframe>" (JStr "https://e/tp://z/b")
                         (JStr "http://z");
              caption_node := None;
              parentNode := true |}.
Proof.
  assert (Hm : matchService (Some b_registry) "http://z"
               = Ok (composePasteEventMock "b" "http://z")) by reflexivity.
  assert (Hfe : sample_first_element "<iframe></iframe>" = true) by reflexivity.
  split; [exact Hm|]. split; [exact Hfe|].
  refine (@check_shows_frame sample_first_element sample_caption_in
            b_registry service_b shown_tool "http://z" "b" "http://z"
            {| shown := InputHolder; caption_node := Some ""; parentNode := true |}
            (re_prefix_rest "^ht(.*)" "ht") "https://e/<%= remote_id %>/b"
            "<iframe></iframe>" [Some "tp://z"] shift
            eq_refl eq_refl Hm _ eq_refl eq_refl eq_refl eq_refl Hfe eq_refl eq_refl _);
    discriminate.
Defined.

Lemma false_flag_disables_nothing_witness :
  prop off_given "Z" = JBool false /\
  obj_get off_services "Z" = Some (JObj service_a).
Proof.
  split; [reflexivity|].
  refine (@false_flag_disables_nothing wide_SERVICES sample_CSS_supports
            wide_catalogue off_cfg off_given off_services off_patterns
            eq_refl eq_refl off_resolved "Z" _ _ eq_refl).
  - intros k [<-|[]]. discriminate.
  - simpl. auto.
Defined.

Lemma true_flag_narrows_witness :
  prop flags_given "X" = JBool true /\
  prop flags_given "Z" = JBool false /\
  obj_get flags_services "Z" = None.
Proof.
  split; [reflexivity|]. split; [reflexivity|].
  refine (proj2 (@true_flag_narrows wide_SERVICES sample_CSS_supports
                   wide_catalogue flags_cfg flags_given flags_services flags_patterns
                   eq_refl eq_refl flags_resolved "X" "Z" _ eq_refl eq_refl) _).
  - simpl. auto.
  - discriminate.
Defined.

Lemma new_key_keeps_six_fields_witness :
  prop Y_custom "title" = JStr "mine" /\
  field (prop flags_services "Y") "title" = JUndefined /\
  field (prop flags_services "Y") "embedUrl" = JStr "https://y.org/embed/<%= remote_id %>".
Proof.
  split; [reflexivity|].
  destruct (@new_key_keeps_six_fields wide_SERVICES sample_CSS_supports
              wide_catalogue flags_cfg flags_given flags_services flags_patterns
              eq_refl eq_refl flags_resolved "Y" Y_custom) as [_ [Hsix Hother]].
  - intros [E|[E|[]]]; discriminate.
  - intros [E|[E|[E|[]]]]; discriminate.
  - intros [E|[E|[]]]; discriminate.
  - simpl. auto.
  - reflexivity.
  - reflexivity.
  - split.
    + apply Hother. intros [E|[E|[E|[E|[E|[E|[]]]]]]]; discriminate.
    + rewrite Hsix by (simpl; auto 10). reflexivity.
Defined.

Lemma patterns_follow_registry_witness :
  prop flags_patterns "Y" = field (prop flags_services "Y") "regex" /\
  prop flags_patterns "Z" = JUndefined.
Proof.
  split.
  - exact (proj1 (@patterns_follow_registry wide_SERVICES sample_CSS_supports
                    wide_catalogue flags_cfg flags_given flags_services flags_patterns
                    eq_refl eq_refl flags_resolved "Y")).
  - reflexivity.
Defined.

Lemma resolution_keeps_usable_witness :
  In "Y" (own_keys flags_services) /\ usable_service (prop flags_services "Y").
Proof.
  assert (Hk : In "Y" (own_keys flags_services)) by (simpl; auto).
  split; [exact Hk|].
  exact (@resolution_keeps_usable wide_SERVICES sample_CSS_supports
           wide_catalogue flags_cfg flags_given flags_services flags_patterns
           eq_refl eq_refl flags_resolved wide_catalogue_usable "Y" Hk).
Defined.

Lemma resolved_registry_is_safe_witness :
  ~ In "hasOwnProperty" (own_keys wide_catalogue) /\
  ~ In "hasOwnProperty" (own_keys flags_given) /\
  exists v, matchService (Some flags_services) "https://y.org/7" = Ok v.
Proof.
  assert (Nc : forall k, ~ In k ["X"; "Z"] -> ~ In k (own_keys wide_catalogue))
    by (intros k H; exact H).
  assert (Ng : forall k, ~ In k ["X"; "Z"; "Y"] -> ~ In k (own_keys flags_given))
    by (intros k H; exact H).
  assert (Hc : ~ In "hasOwnProperty" ["X"; "Z"])
    by (intros [E|[E|[]]]; discriminate).
  assert (Hg : ~ In "hasOwnProperty" ["X"; "Z"; "Y"])
    by (intros [E|[E|[E|[]]]]; discriminate).
  assert (Pc : ~ In "__proto__" ["X"; "Z"])
    by (intros [E|[E|[]]]; discriminate).
  assert (Pg : ~ In "__proto__" ["X"; "Z"; "Y"])
    by (intros [E|[E|[E|[]]]]; discriminate).
  split; [exact (Nc _ Hc)|]. split; [exact (Ng _ Hg)|].
  exact (@resolved_registry_is_safe wide_SERVICES sample_CSS_supports
           wide_catalogue flags_cfg flags_given flags_services flags_patterns
           eq_refl eq_refl flags_resolved "https://y.org/7" wide_catalogue_usable
           (Nc _ Hc) (Ng _ Hg) (Nc _ Pc) (Ng _ Pg)).
Defined.

Lemma no_configuration_gives_catalogue_witness :
  prepare wide_SERVICES sample_CSS_supports JUndefined
  = Ok (plain_services, plain_patterns) /\
  obj_get plain_services "Z" = Some (JObj service_a) /\
  obj_get plain_services "Y" = None.
Proof.
  assert (Hp : prepare wide_SERVICES sample_CSS_supports JUndefined
               = Ok (plain_services, plain_patterns)) by reflexivity.
  destruct (@no_configuration_gives_catalogue wide_SERVICES sample_CSS_supports
              wide_catalogue plain_services plain_patterns eq_refl Hp)
    as [_ [_ [Hin Hout]]].
  split; [exact Hp|]. split.
  - apply (Hin "Z"). simpl. auto.
  - apply (Hout "Y"). intros [E|[E|[]]]; discriminate.
Defined.

Lemma null_in_configuration_throws_witness :
  let given := [("X", JBool true); ("broken", JNull)] in
  prop given "broken" = JNull /\
  prepare wide_SERVICES sample_CSS_supports (JObj [("services", JObj given)])
  = Throw TypeError.
Proof.
  intros given. split; [reflexivity|].
  refine (proj2 (proj2 (null_in_configuration_throws wide_SERVICES sample_CSS_supports))
            wide_catalogue [("services", JObj given)] given "broken"
            eq_refl eq_refl _ eq_refl).
  simpl. auto.
Defined.

Lemma failed_check_marks_holder_witness :
  inputHolder fresh_tool = None /\
  inputHolder shown_tool = Some false /\
  startChecking sample_first_element sample_caption_in (Some sample_registry)
    fresh_tool "mailto:x" = Raises TypeError fresh_tool /\
  startChecking sample_first_element sample_caption_in (Some sample_registry)
    shown_tool "mailto:x"
  = Returns false {| _data := _data shown_tool; element := element shown_tool;
                     inputHolder := Some true |}.
Proof.
  assert (H : forall k, In k (own_keys sample_registry) ->
                pattern_test sample_registry k (candidate "mailto:x") = Ok false).
  { intros k [<-|[<-|[<-|[]]]]; reflexivity. }
  assert (D : Some sample_registry = None \/ "mailto:x" = "" \/
              (exists o, Some sample_registry = Some o /\
                 forall k, In k (own_keys o) ->
                   pattern_test o k (candidate "mailto:x") = Ok false)).
  { right. right. exists sample_registry. split; [reflexivity | exact H]. }
  split; [reflexivity|]. split; [reflexivity|]. split.
  - exact (proj1 (@failed_check_marks_holder sample_first_element sample_caption_in
                    (Some sample_registry) fresh_tool "mailto:x" D) eq_refl).
  - exact (proj2 (@failed_check_marks_holder sample_first_element sample_caption_in
                    (Some sample_registry) shown_tool "mailto:x" D) false eq_refl).
Defined.

(** The sample catalogue and a valid definition under the key
    [hasOwnProperty]. *)
Definition shadow_cfg : obj :=
  [("services", JObj [("hasOwnProperty", JObj X_custom)])].
Definition shadow_services : obj :=
  match prepare sample_SERVICES sample_CSS_supports (JObj shadow_cfg) with
  | Ok (services, _) => services
  | Throw _ => []
  end.

Lemma own_hasOwnProperty_throws_witness :
  own_keys shadow_services = ["X"; "hasOwnProperty"] /\
  obj_get shadow_services "hasOwnProperty" = Some (JObj (picked X_custom)) /\
  matchService (Some shadow_services) "https://x.com/1" = Throw TypeError.
Proof.
  assert (Hv : obj_get shadow_services "hasOwnProperty" = Some (JObj (picked X_custom)))
    by reflexivity.
  assert (Hne : "https://x.com/1" <> "") by discriminate.
  split; [reflexivity|]. split; [exact Hv|].
  exact (@own_hasOwnProperty_throws shadow_services _ "https://x.com/1" Hv eq_refl Hne).
Defined.

Lemma regexp_update_takes_source_witness :
  let w := {| _data := example_record; element := None; inputHolder := None |} in
  let w' := state_of (set_data sample_first_element sample_caption_in
                        (Some sample_registry) w (JRegExp (re_prefix "^h" "h"))) in
  instanceof_Object (JRegExp (re_prefix "^h" "h")) = true /\
  In "width" record_fields /\
  prop (_data w') "source" = JStr "^h" /\
  prop (_data w') "width" = JNum 10.
Proof.
  intros w w'.
  assert (Hk : In "width" record_fields) by (simpl; auto).
  split; [reflexivity|]. split; [exact Hk|].
  destruct (@regexp_update_takes_source sample_first_element sample_caption_in
              (Some sample_registry) w (re_prefix "^h" "h") "width" Hk) as [Hs [_ Hw]].
  split; [exact Hs|]. apply Hw. discriminate.
Defined.
